(** * Progress delivery of the Gemini Question Solver front end

    A shallow embedding of the two progress hooks of the React front end
    ([useProgress], the polling hook, and [useWebSocket], the socket hook), of
    [App.startSolving], which chooses between them, and of the percentage
    computed by the [ProgressSection] component.

    The hooks are event driven.  Each hook is modelled by a record holding
    its refs ([timerRef], [wsRef], [pingRef]) together with the part of the
    browser the hook talks to (pending timers, promises not yet settled,
    WebSocket objects and their [readyState]), and by a total [step] function
    that runs the body of [start], [stop] or of one handler.  Calls of the
    consumer callbacks are appended to a log, in the order they are made.

    Two things are taken for granted throughout: a consumer callback returns
    normally (the [try] blocks of the hooks would otherwise catch what it
    throws), and what a transport delivers, once parsed, is a JSON object. *)

From Stdlib Require Import SpecFloat.
From stdpp Require Import base option list strings gmap fin_maps.

Open Scope string_scope.
Open Scope list_scope.
Open Scope nat_scope.

(** ** JavaScript numbers

    A JavaScript number is an IEEE 754 binary64 value; [spec_float] with
    precision 53 and maximal exponent 1024 is that format. *)

Module JS.

Definition number : Type := spec_float.

Definition prec : Z := 53.
Definition emax : Z := 1024.

Definition of_Z (z : Z) : number := binary_normalize prec emax z 0 false.

Definition zero : number := S754_zero false.
Definition NaN : number := S754_nan.

(** [x > y], [x / y] and [x * y]. *)
Definition gt (x y : number) : bool := SFltb y x.
Definition div (x y : number) : number := SFdiv prec emax x y.
Definition mul (x y : number) : number := SFmul prec emax x y.

(** ToNumber of a property that may be missing: [undefined] becomes NaN. *)
Definition to_number (o : option number) : number := default NaN o.

Definition is_zero (x : number) : bool :=
  match x with S754_zero _ => true | _ => false end.

(** [x / y] that reports a zero divisor instead of producing an infinity or
    NaN. *)
Definition div_checked (x y : number) : option number :=
  if is_zero y then None else Some (div x y).

(** Truthiness of a string property that may be missing, as used by
    [data.error || 'Processing error']. *)
Definition or_else (o : option string) (d : string) : string :=
  match o with
  | Some "" | None => d
  | Some s => s
  end.

End JS.

(** ** Progress envelopes

    The objects the server sends on either transport.  A field that is
    absent from the object is [None]. *)

Record item_result := {
  filename : string;
  success : bool;
}.

Record envelope := {
  type : option string;
  status : option string;
  error : option string;
  progress : option JS.number;
  total : option JS.number;
  results : list item_result;
  latest_result : option item_result;
}.

(** The calls a hook makes to its consumer. *)
Inductive call :=
  | onTick (data : envelope)
  | onComplete (data : envelope)
  | onError (message : string).

Definition is_onTick (c : call) : bool :=
  match c with onTick _ => true | _ => false end.

Definition is_terminal_call (c : call) : bool :=
  match c with onTick _ => false | _ => true end.

(** An [onError] call carries a message that is not empty. *)
Definition has_message (c : call) : bool :=
  match c with
  | onError message => negb (String.eqb message "")
  | _ => true
  end.

(** [s === 'lit'] for a property that may be missing. *)
Definition str_is (o : option string) (lit : string) : bool :=
  match o with
  | Some s => String.eqb s lit
  | None => false
  end.

(** The last two calls of [l] are [onTick data] and then a terminal
    callback. *)
Definition tick_then_terminal (l : list call) (data : envelope) : Prop :=
  ∃ pre c, l = pre ++ [onTick data; c] ∧ is_terminal_call c = true.

(** ** ProgressSection *)

Module ProgressSection.

(** [const percent = data.total > 0 ? (data.progress / data.total) * 100 : 0;] *)
Definition percent (data : envelope) : JS.number :=
  if JS.gt (JS.to_number (total data)) JS.zero
  then JS.mul (JS.div (JS.to_number (progress data)) (JS.to_number (total data)))
              (JS.of_Z 100)
  else JS.zero.

(** The same expression with every division checked for a zero divisor. *)
Definition percent_checked (data : envelope) : option JS.number :=
  if JS.gt (JS.to_number (total data)) JS.zero
  then q ← JS.div_checked (JS.to_number (progress data)) (JS.to_number (total data));
       Some (JS.mul q (JS.of_Z 100))
  else Some JS.zero.

End ProgressSection.

(** ** useProgress: the polling hook *)

Module Pull.

(** Modelled from the spec: [api.getProgress] of [lib/api], which is not
    among the sources.  It is a query by session id that returns one
    progress envelope per call, or fails (network, timeout, a response that
    does not parse): the promise it returns resolves with an envelope or
    rejects. *)
Inductive settled :=
  | Resolved (data : envelope)
  | Rejected.

(** [timerRef] is the hook's ref.  [timers] are the [setTimeout(poll, d)]
    registrations that have neither fired nor been cleared: the handle maps
    to the session captured by the [poll] closure and to the delay [d].
    Handles are positive, as the browser's are, so a handle is truthy.
    [inflight] are the [api.getProgress] promises that have not settled,
    each with the session of the [poll] call awaiting it. *)
Record state := {
  timerRef : option positive;
  timers : gmap positive (string * Z);
  next_timer : positive;
  inflight : gmap nat string;
  next_query : nat;
  log : list call;
}.

Definition init : state :=
  {| timerRef := None; timers := ∅; next_timer := 1%positive;
     inflight := ∅; next_query := 0; log := [] |}.

Definition emit (c : call) (s : state) : state :=
  {| timerRef := timerRef s; timers := timers s; next_timer := next_timer s;
     inflight := inflight s; next_query := next_query s;
     log := log s ++ [c] |}.

(** [timerRef.current = setTimeout(poll, delay)] *)
Definition setTimeout (sessionId : string) (delay : Z) (s : state) : state :=
  {| timerRef := Some (next_timer s);
     timers := <[next_timer s := (sessionId, delay)]> (timers s);
     next_timer := Pos.succ (next_timer s);
     inflight := inflight s; next_query := next_query s; log := log s |}.

(** [stop]: clear the timer [timerRef] holds, if it holds one. *)
Definition stop (s : state) : state :=
  match timerRef s with
  | Some t =>
      {| timerRef := None; timers := delete t (timers s);
         next_timer := next_timer s; inflight := inflight s;
         next_query := next_query s; log := log s |}
  | None => s
  end.

(** [poll()] up to its [await]: the query is issued. *)
Definition poll (sessionId : string) (s : state) : state :=
  {| timerRef := timerRef s; timers := timers s; next_timer := next_timer s;
     inflight := <[next_query s := sessionId]> (inflight s);
     next_query := S (next_query s); log := log s |}.

(** [poll()] from its [await] on: the [try] body when the promise
    resolves, the [catch] block when it rejects. *)
Definition poll_resume (sessionId : string) (o : settled) (s : state) : state :=
  match o with
  | Resolved data =>
      let s := emit (onTick data) s in
      if str_is (status data) "completed" then
        emit (onComplete data) s
      else if str_is (status data) "error" then
        emit (onError (JS.or_else (error data) "Processing error")) s
      else
        setTimeout sessionId 800 s
  | Rejected => setTimeout sessionId 2000 s
  end.

(** [start(sessionId, onTick)] *)
Definition start (sessionId : string) (s : state) : state :=
  poll sessionId (stop s).

Definition settle_query (q : nat) (s : state) : state :=
  {| timerRef := timerRef s; timers := timers s; next_timer := next_timer s;
     inflight := delete q (inflight s);
     next_query := next_query s; log := log s |}.

Definition expire_timer (t : positive) (s : state) : state :=
  {| timerRef := timerRef s; timers := delete t (timers s);
     next_timer := next_timer s; inflight := inflight s;
     next_query := next_query s; log := log s |}.

(** What can happen to the hook: its owner calls [start] or [stop], a
    pending promise settles, a pending timer expires. *)
Inductive event :=
  | Start (sessionId : string)
  | Stop
  | Settle (q : nat) (o : settled)
  | Fire (t : positive).

Definition step (s : state) (ev : event) : state :=
  match ev with
  | Start sessionId => start sessionId s
  | Stop => stop s
  | Settle q o =>
      match inflight s !! q with
      | Some sessionId => poll_resume sessionId o (settle_query q s)
      | None => s
      end
  | Fire t =>
      match timers s !! t with
      | Some (sessionId, _) => poll sessionId (expire_timer t s)
      | None => s
      end
  end.

Definition run (s : state) (evs : list event) : state := foldl step s evs.

Definition is_start (ev : event) : bool :=
  match ev with Start _ => true | _ => false end.

(** The events of a session in which the queries settle in turn as [os]
    say: query [q] settles with the first outcome, the timer [t] this arms
    expires and issues the next query, and so on. *)
Fixpoint deliver (q : nat) (t : positive) (os : list settled) : list event :=
  match os with
  | [] => []
  | o :: os => Settle q o :: Fire t :: deliver (S q) (Pos.succ t) os
  end.

(** The discriminator of the hook: only [status] is read. *)
Definition is_terminal (data : envelope) : bool :=
  str_is (status data) "completed" || str_is (status data) "error".

(** An outcome after which the loop goes on: a rejection, or an envelope
    that is not terminal. *)
Definition goes_on (o : settled) : bool :=
  match o with
  | Resolved data => negb (is_terminal data)
  | Rejected => true
  end.

(** The ticks a list of outcomes that go on gives rise to. *)
Definition ticks (os : list settled) : list call :=
  omap (λ o, match o with Resolved data => Some (onTick data) | Rejected => None end) os.

(** The terminal callback of a terminal envelope. *)
Definition terminal_call (data : envelope) : call :=
  if str_is (status data) "completed" then onComplete data
  else onError (JS.or_else (error data) "Processing error").

(** The calls the hook makes for an envelope a query resolves with. *)
Definition forwarded (data : envelope) : list call :=
  onTick data :: (if is_terminal data then [terminal_call data] else []).

(** A session started on hook state [s0] whose queries settle as [os]
    say. *)
Definition session (s0 : state) (sessionId : string) (os : list settled) : state :=
  run (start sessionId s0) (deliver (next_query s0) (next_timer s0) os).

(** A session whose queries resolve with [es] in turn and then with
    [last]. *)
Definition answers (s0 : state) (sessionId : string) (es : list envelope)
    (last : envelope) : state :=
  step (session s0 sessionId (Resolved <$> es))
       (Settle (next_query s0 + length es) (Resolved last)).

Definition no_start (evs : list event) : bool :=
  forallb (λ ev, negb (is_start ev)) evs.

(** In state [s] the hook calls its consumer no more, whatever happens
    short of a new [start]. *)
Definition silent (s : state) : Prop :=
  ∀ evs, no_start evs = true → log (run s evs) = log s.

(** After [stop()] in state [s] the hook calls its consumer no more. *)
Definition silent_after_stop (s : state) : Prop :=
  ∀ evs, no_start evs = true → log (run (stop s) evs) = log s.

(** An envelope that ends the loop with [onTick] followed by
    [onComplete], whenever a query resolves with it. *)
Definition completes (data : envelope) : Prop :=
  ∀ s q sessionId, inflight s !! q = Some sessionId →
    log (step s (Settle q (Resolved data))) = log s ++ [onTick data; onComplete data].

(** At most one thing is pending: a query or a timer. *)
Definition sequential (s : state) : Prop :=
  size (inflight s) + size (timers s) ≤ 1.

(** Every pending timer is the one [timerRef] holds. *)
Definition tracked (s : state) : Prop :=
  ∀ t, is_Some (timers s !! t) → timerRef s = Some t.

(** Nothing is pending. *)
Definition idle (s : state) : Prop :=
  inflight s = ∅ ∧ timers s = ∅.

(** Exactly query [q] of session [sessionId] is pending, and [t] is the
    handle the next timer gets. *)
Definition polling_at (s : state) (sessionId : string) (q : nat) (t : positive) : Prop :=
  inflight s = {[q := sessionId]} ∧ timers s = ∅ ∧
  next_query s = S q ∧ next_timer s = t.

(** The number the next query gets is above every query in flight. *)
Definition fresh (s : state) : Prop :=
  ∀ q, is_Some (inflight s !! q) → q < next_query s.

(** The sessions the hook was started with in [evs]. *)
Definition started (evs : list event) : list string :=
  omap (λ ev, match ev with Start sessionId => Some sessionId | _ => None end) evs.

(** A delay the hook passes to [setTimeout]. *)
Definition is_poll_delay (d : Z) : bool := (d =? 800)%Z || (d =? 2000)%Z.

End Pull.

(** ** useWebSocket: the socket hook *)

Module Push.

Inductive ready_state := CONNECTING | OPEN | CLOSING | CLOSED.

(** A WebSocket object: the session its URL was built from, which is also
    the session of the [onTick] its handlers captured, and its
    [readyState]. *)
Record websocket := {
  of_session : string;
  readyState : ready_state;
}.

(** [event.data] as [JSON.parse] sees it: [Malformed] when [JSON.parse]
    throws, the parsed object otherwise. *)
Inductive frame :=
  | Malformed
  | Json (data : envelope).

(** [wsRef] and [pingRef] are the hook's refs.  [sockets] holds every
    WebSocket the hook has constructed, a socket being identified by its
    position.  [intervals] are the active [setInterval] registrations, each
    with the socket its callback captured.  [sent] lists the frames passed
    to [ws.send]. *)
Record state := {
  wsRef : option nat;
  pingRef : option positive;
  sockets : list websocket;
  intervals : gmap positive nat;
  next_timer : positive;
  sent : list (nat * string);
  log : list call;
}.

Definition init : state :=
  {| wsRef := None; pingRef := None; sockets := []; intervals := ∅;
     next_timer := 1%positive; sent := []; log := [] |}.

Definition emit (c : call) (s : state) : state :=
  {| wsRef := wsRef s; pingRef := pingRef s; sockets := sockets s;
     intervals := intervals s; next_timer := next_timer s; sent := sent s;
     log := log s ++ [c] |}.

Definition set_readyState (r : ready_state) (w : websocket) : websocket :=
  {| of_session := of_session w; readyState := r |}.

(** [ws.close()]: an open or connecting socket starts closing, a closing
    or closed one is left as it is. *)
Definition close (w : websocket) : websocket :=
  match readyState w with
  | CONNECTING | OPEN => set_readyState CLOSING w
  | CLOSING | CLOSED => w
  end.

(** [if (pingRef.current) { clearInterval(pingRef.current); pingRef.current = null; }] *)
Definition clear_ping (s : state) : state :=
  match pingRef s with
  | Some t =>
      {| wsRef := wsRef s; pingRef := None; sockets := sockets s;
         intervals := delete t (intervals s); next_timer := next_timer s;
         sent := sent s; log := log s |}
  | None => s
  end.

(** [if (wsRef.current) { wsRef.current.close(); wsRef.current = null; }] *)
Definition close_ws (s : state) : state :=
  match wsRef s with
  | Some i =>
      {| wsRef := None; pingRef := pingRef s;
         sockets := alter close i (sockets s);
         intervals := intervals s; next_timer := next_timer s;
         sent := sent s; log := log s |}
  | None => s
  end.

Definition stop (s : state) : state := close_ws (clear_ping s).

(** [const ws = new WebSocket(wsUrl); wsRef.current = ws;] *)
Definition new_WebSocket (sessionId : string) (s : state) : state :=
  {| wsRef := Some (length (sockets s)); pingRef := pingRef s;
     sockets := sockets s ++ [{| of_session := sessionId; readyState := CONNECTING |}];
     intervals := intervals s; next_timer := next_timer s;
     sent := sent s; log := log s |}.

(** [start(sessionId, onTick)] when the constructor returns. *)
Definition start (sessionId : string) (s : state) : state :=
  new_WebSocket sessionId (stop s).

(** [start(sessionId, onTick)] when the constructor throws: [stop()] has
    run, nothing else has, and the exception reaches the caller. *)
Definition start_throws (s : state) : state := stop s.

(** [ws.onopen] of socket [i] *)
Definition onopen (i : nat) (s : state) : state :=
  {| wsRef := wsRef s; pingRef := Some (next_timer s); sockets := sockets s;
     intervals := <[next_timer s := i]> (intervals s);
     next_timer := Pos.succ (next_timer s); sent := sent s; log := log s |}.

(** The interval callback armed by [ws.onopen] of socket [i] *)
Definition ping (i : nat) (s : state) : state :=
  match sockets s !! i with
  | Some {| readyState := OPEN |} =>
      {| wsRef := wsRef s; pingRef := pingRef s; sockets := sockets s;
         intervals := intervals s; next_timer := next_timer s;
         sent := sent s ++ [(i, "ping")]; log := log s |}
  | _ => s
  end.

(** [ws.onmessage] *)
Definition onmessage (f : frame) (s : state) : state :=
  match f with
  | Malformed => s
  | Json data =>
      if str_is (type data) "pong" then s
      else if str_is (type data) "completed" || str_is (status data) "completed" then
        stop (emit (onComplete data) (emit (onTick data) s))
      else if str_is (type data) "error" || str_is (status data) "error" then
        stop (emit (onError (JS.or_else (error data) "Processing error")) s)
      else
        emit (onTick data) s
  end.

(** [ws.onerror]: the handler is empty. *)
Definition onerror (s : state) : state := s.

(** [ws.onclose] *)
Definition onclose (s : state) : state := clear_ping s.

Definition set_socket (i : nat) (r : ready_state) (s : state) : state :=
  {| wsRef := wsRef s; pingRef := pingRef s;
     sockets := alter (set_readyState r) i (sockets s);
     intervals := intervals s; next_timer := next_timer s;
     sent := sent s; log := log s |}.

Definition ready (s : state) (i : nat) : option ready_state :=
  readyState <$> sockets s !! i.

(** What can happen to the hook.  [Start], [StartThrows] and [Stop] are
    calls by its owner ([Stop] is also the effect cleanup on unmount).  The
    others are dispatched by the browser: [open] on a connecting socket,
    [message] on an open socket only, [error] at any time, [close] once, on
    a socket not yet closed, and the expiry of an active interval. *)
Inductive event :=
  | Start (sessionId : string)
  | StartThrows (sessionId : string)
  | Stop
  | Open (i : nat)
  | Message (i : nat) (f : frame)
  | Error (i : nat)
  | Close (i : nat)
  | Interval (t : positive).

Definition step (s : state) (ev : event) : state :=
  match ev with
  | Start sessionId => start sessionId s
  | StartThrows _ => start_throws s
  | Stop => stop s
  | Open i =>
      match ready s i with
      | Some CONNECTING => onopen i (set_socket i OPEN s)
      | _ => s
      end
  | Message i f =>
      match ready s i with
      | Some OPEN => onmessage f s
      | _ => s
      end
  | Error i => onerror s
  | Close i =>
      match ready s i with
      | Some (CONNECTING | OPEN | CLOSING) => onclose (set_socket i CLOSED s)
      | _ => s
      end
  | Interval t =>
      match intervals s !! t with
      | Some i => ping i s
      | None => s
      end
  end.

Definition run (s : state) (evs : list event) : state := foldl step s evs.

Definition is_start (ev : event) : bool :=
  match ev with Start _ => true | _ => false end.

(** The discriminator of the hook: a frame is a keepalive answer when its
    [type] is ['pong']; otherwise [type] and [status] are both read. *)
Definition is_pong (data : envelope) : bool := str_is (type data) "pong".

Definition is_completed (data : envelope) : bool :=
  str_is (type data) "completed" || str_is (status data) "completed".

Definition is_error (data : envelope) : bool :=
  str_is (type data) "error" || str_is (status data) "error".

Definition is_terminal (data : envelope) : bool :=
  is_completed data || is_error data.

(** An envelope the hook forwards without stopping. *)
Definition is_progress (data : envelope) : bool :=
  negb (is_pong data || is_terminal data).

(** The calls the hook makes for a terminal envelope. *)
Definition terminal_calls (data : envelope) : list call :=
  if is_completed data then [onTick data; onComplete data]
  else [onError (JS.or_else (error data) "Processing error")].

(** The calls the hook makes for a frame that parses. *)
Definition forwarded (data : envelope) : list call :=
  if is_pong data then []
  else if is_terminal data then terminal_calls data
  else [onTick data].

(** A session started on hook state [s0]: the socket opens and receives
    the frames [fs]. *)
Definition session (s0 : state) (sessionId : string) (fs : list frame) : state :=
  run (start sessionId s0)
      (Open (length (sockets s0)) :: (Message (length (sockets s0)) <$> fs)).

Definition no_start (evs : list event) : bool :=
  forallb (λ ev, negb (is_start ev)) evs.

(** In state [s] the hook calls its consumer no more, whatever happens
    short of a new [start]. *)
Definition silent (s : state) : Prop :=
  ∀ evs, no_start evs = true → log (run s evs) = log s.

(** After [stop()] in state [s] the hook calls its consumer no more. *)
Definition silent_after_stop (s : state) : Prop :=
  ∀ evs, no_start evs = true → log (run (stop s) evs) = log s.

(** A socket on which the browser may still dispatch [open] or
    [message]. *)
Definition live (w : websocket) : bool :=
  match readyState w with
  | CONNECTING | OPEN => true
  | CLOSING | CLOSED => false
  end.

(** No socket is live. *)
Definition quiet (s : state) : Prop :=
  Forall (λ w, live w = false) (sockets s).

(** A live socket is the one [wsRef] holds. *)
Definition owned (s : state) : Prop :=
  ∀ j w, sockets s !! j = Some w → live w = true → wsRef s = Some j.

(** Socket [i] is open and is the one [wsRef] holds. *)
Definition open_at (s : state) (i : nat) : Prop :=
  wsRef s = Some i ∧ ready s i = Some OPEN.

(** The order in which a socket goes through its states. *)
Definition rank (r : ready_state) : nat :=
  match r with CONNECTING => 0 | OPEN => 1 | CLOSING => 2 | CLOSED => 3 end.

(** Every active interval is the one [pingRef] holds, serves the socket
    [wsRef] holds, and that socket has opened. *)
Definition ping_tracked (s : state) : Prop :=
  ∀ t i, intervals s !! t = Some i →
    pingRef s = Some t ∧ wsRef s = Some i ∧ ready s i ≠ Some CONNECTING.

(** [wsUrl]: [protocol] and [host] are [window.location.protocol] and
    [window.location.host]. *)
Definition wsUrl (protocol host sessionId : string) : string :=
  (if String.eqb protocol "https:" then "wss:" else "ws:")
  +:+ "//" +:+ host +:+ "/ws/progress/" +:+ sessionId.

End Push.

(** ** App: the consumer of the two hooks *)

Module App.

(** The state [App] keeps about a solving session, and the two hooks. *)
Record state := {
  processing : bool;
  progressData : option envelope;
  shown_results : option (list item_result);
  ws : Push.state;
  polling : Pull.state;
}.

Definition init : state :=
  {| processing := false; progressData := None; shown_results := None;
     ws := Push.init; polling := Pull.init |}.

(** [handleComplete], [handleError] and the [onTick] passed to the hooks,
    as one dispatch on the call made. *)
Definition handle (c : call) (s : state) : state :=
  match c with
  | onTick data =>
      {| processing := processing s; progressData := Some data;
         shown_results := shown_results s; ws := ws s; polling := polling s |}
  | onComplete data =>
      {| processing := false; progressData := None;
         shown_results := Some (results data); ws := ws s; polling := polling s |}
  | onError _ =>
      {| processing := false; progressData := None;
         shown_results := shown_results s; ws := ws s; polling := polling s |}
  end.

Definition handle_all (cs : list call) (s : state) : state :=
  foldl (λ s c, handle c s) s cs.

Definition set_ws (w : Push.state) (s : state) : state :=
  {| processing := processing s; progressData := progressData s;
     shown_results := shown_results s; ws := w; polling := polling s |}.

Definition set_polling (p : Pull.state) (s : state) : state :=
  {| processing := processing s; progressData := progressData s;
     shown_results := shown_results s; ws := ws s; polling := p |}.

(** [startSolving(sessionId)].  [constructs] tells whether
    [new WebSocket] returns ([true]) or throws ([false]) inside
    [ws.start]. *)
Definition startSolving (sessionId : string) (constructs : bool) (s : state) : state :=
  let s :=
    {| processing := true; progressData :=
         Some {| type := None; status := None; error := None;
                 progress := Some JS.zero; total := Some JS.zero;
                 results := []; latest_result := None |};
       shown_results := None; ws := ws s; polling := polling s |} in
  if constructs then
    set_ws (Push.start sessionId (ws s)) s
  else
    let s := set_ws (Push.start_throws (ws s)) s in
    set_polling (Pull.start sessionId (polling s)) s.

(** The calls a hook made during a step are the ones its log gained. *)
Definition new_calls (before after : list call) : list call :=
  drop (length before) after.

Inductive event :=
  | StartSolving (sessionId : string) (constructs : bool)
  | Socket (ev : Push.event)
  | Poll (ev : Pull.event).

(** The browser's events reach the hooks; [start] and [stop] of a hook are
    called by [App] only, so such an event is not one of the browser's. *)
Definition from_browser_push (ev : Push.event) : bool :=
  match ev with
  | Push.Start _ | Push.StartThrows _ | Push.Stop => false
  | _ => true
  end.

Definition from_browser_pull (ev : Pull.event) : bool :=
  match ev with
  | Pull.Start _ | Pull.Stop => false
  | _ => true
  end.

Definition step (s : state) (ev : event) : state :=
  match ev with
  | StartSolving sessionId constructs => startSolving sessionId constructs s
  | Socket ev =>
      if from_browser_push ev then
        let w := Push.step (ws s) ev in
        handle_all (new_calls (Push.log (ws s)) (Push.log w)) (set_ws w s)
      else s
  | Poll ev =>
      if from_browser_pull ev then
        let p := Pull.step (polling s) ev in
        handle_all (new_calls (Pull.log (polling s)) (Pull.log p)) (set_polling p s)
      else s
  end.

Definition run (s : state) (evs : list event) : state := foldl step s evs.

Definition is_startSolving (ev : event) : bool :=
  match ev with StartSolving _ _ => true | _ => false end.

End App.

(** ** FolderMode: selection of files and their results *)

Module FolderMode.

(** A scanned file; only its name matters to the selection. *)
Record file := {
  file_filename : string;
  file_size : option JS.number;
}.

(** A JavaScript [Set] of strings: its elements in insertion order, each
    once. *)
Definition has (x : string) (s : list string) : bool := bool_decide (x ∈ s).

Definition add (x : string) (s : list string) : list string :=
  if has x s then s else s ++ [x].

Definition delete (x : string) (s : list string) : list string :=
  filter (λ y, y ≠ x) s.

(** [new Set(iterable)] *)
Definition new_Set (l : list string) : list string :=
  foldl (λ s x, add x s) [] l.

(** The updater [toggleFile(filename)] passes to [setSelectedFiles]. *)
Definition toggleFile (filename : string) (prev : list string) : list string :=
  let next := new_Set prev in
  if has filename next then delete filename next else add filename next.

(** [selectAll]: [new Set(files.map((f) => f.filename))] *)
Definition selectAll (files : list file) : list string :=
  new_Set (file_filename <$> files).

Definition clearSelection : list string := new_Set [].

(** [solveSelected] up to its [await]: with nothing selected it shows an
    error and returns ([None]); otherwise it calls [api.solveSelected] with
    the selected names in insertion order. *)
Definition solveSelected (selectedFiles : list string) : option (list string) :=
  if length selectedFiles =? 0 then None else Some selectedFiles.

(** The names every object inherits from [Object.prototype]. *)
Definition Object_prototype : list string :=
  ["constructor"; "__defineGetter__"; "__defineSetter__"; "hasOwnProperty";
   "__lookupGetter__"; "__lookupSetter__"; "isPrototypeOf";
   "propertyIsEnumerable"; "toString"; "valueOf"; "__proto__"; "toLocaleString"].

(** What [map[name]] gives on an object created by [{}] that holds booleans:
    an own boolean, an inherited property (a function, or the prototype
    itself for [__proto__]), or [undefined] ([None]). *)
Inductive property :=
  | Own (b : bool)
  | Inherited.

(** [map[name] = b]: an own property is written, except that a boolean
    assigned to [__proto__] goes to the inherited setter, which ignores
    it. *)
Definition assign (name : string) (b : bool) (own : gmap string bool) : gmap string bool :=
  if String.eqb name "__proto__" then own else <[name := b]> own.

(** [map[name]] *)
Definition get (own : gmap string bool) (name : string) : option property :=
  match own !! name with
  | Some b => Some (Own b)
  | None => if bool_decide (name ∈ Object_prototype) then Some Inherited else None
  end.

(** [resultMap]: the own properties of the object built from
    [progressData?.results], a later result for a file name replacing an
    earlier one. *)
Definition resultMap (progressData : option envelope) : gmap string bool :=
  match progressData with
  | Some data => foldl (λ map r, assign (filename r) (success r) map) ∅ (results data)
  | None => ∅
  end.

(** [hasResult] of a file card: [resultMap[file.filename] !== undefined]. *)
Definition hasResult (progressData : option envelope) (name : string) : bool :=
  bool_decide (is_Some (get (resultMap progressData) name)).

(** Whether the badge of a file card is the green one: the truthiness of
    [resultMap[file.filename]]. *)
Definition badge (progressData : option envelope) (name : string) : option bool :=
  match get (resultMap progressData) name with
  | Some (Own b) => Some b
  | Some Inherited => Some true
  | None => None
  end.

End FolderMode.

(** ** Sample envelopes *)

Module Sample.

Definition blank : envelope :=
  {| type := None; status := None; error := None; progress := None;
     total := None; results := []; latest_result := None |}.

Definition item (name : string) : item_result :=
  {| filename := name; success := true |}.

(** A progress envelope of a job of three items, [n] of them done. *)
Definition tick (n : Z) : envelope :=
  {| type := Some "progress"; status := Some "processing"; error := None;
     progress := Some (JS.of_Z n); total := Some (JS.of_Z 3);
     results := []; latest_result := None |}.

Definition done_all : envelope :=
  {| type := Some "completed"; status := Some "completed"; error := None;
     progress := Some (JS.of_Z 3); total := Some (JS.of_Z 3);
     results := [item "A"; item "B"; item "C"]; latest_result := None |}.

(** Completion told by [type] alone, and by [status] alone. *)
Definition completed_by_type : envelope :=
  {| type := Some "completed"; status := None; error := None;
     progress := Some (JS.of_Z 3); total := Some (JS.of_Z 3);
     results := [item "A"; item "B"; item "C"]; latest_result := None |}.

Definition completed_by_status : envelope :=
  {| type := None; status := Some "completed"; error := None;
     progress := Some (JS.of_Z 3); total := Some (JS.of_Z 3);
     results := [item "A"; item "B"; item "C"]; latest_result := None |}.

Definition failed : envelope :=
  {| type := Some "error"; status := Some "error"; error := Some "rate limited";
     progress := None; total := None; results := []; latest_result := None |}.

Definition pong : envelope :=
  {| type := Some "pong"; status := None; error := None; progress := None;
     total := None; results := []; latest_result := None |}.

(** A job that has not reported its size yet. *)
Definition unsized : envelope :=
  {| type := Some "init"; status := Some "processing"; error := None;
     progress := Some JS.zero; total := Some JS.zero;
     results := []; latest_result := None |}.

End Sample.

(** * Properties *)

(** ** ProgressSection *)

Lemma gt_zero_not_zero (x : JS.number) :
  JS.gt x JS.zero = true → JS.is_zero x = false.
Proof. by destruct x as [[]|[]| |[] m e]. Qed.

Example percent_quarter :
  ProgressSection.percent
    {| type := None; status := None; error := None;
       progress := Some (JS.of_Z 1); total := Some (JS.of_Z 4);
       results := []; latest_result := None |}
  = JS.of_Z 25.
Proof. reflexivity. Qed.

Example percent_unsized : ProgressSection.percent Sample.unsized = JS.zero.
Proof. reflexivity. Qed.

(** C10: the percentage is [(progress / total) * 100] when [total > 0]; it
    is [0] when [total] is missing or zero; and the computation never
    evaluates a division whose divisor is zero. *)
Theorem percent_guarded (data : envelope) :
  (∀ t, total data = Some t → JS.gt t JS.zero = true →
     ProgressSection.percent data
     = JS.mul (JS.div (JS.to_number (progress data)) t) (JS.of_Z 100))
  ∧ (total data = None → ProgressSection.percent data = JS.zero)
  ∧ (∀ t, total data = Some t → JS.is_zero t = true →
     ProgressSection.percent data = JS.zero)
  ∧ ProgressSection.percent_checked data = Some (ProgressSection.percent data).
Proof.
  unfold ProgressSection.percent, ProgressSection.percent_checked.
  split; [|split; [|split]].
  - intros t -> Ht. simpl. by rewrite Ht.
  - by intros ->.
  - intros t -> Ht. by destruct t as [[]| | |].
  - unfold JS.div_checked. destruct (JS.gt _ _) eqn:Hgt; [|done].
    by rewrite (gt_zero_not_zero _ Hgt).
Qed.

Lemma percent_guarded_witness :
  (total (Sample.tick 1) = Some (JS.of_Z 3)
   ∧ JS.gt (JS.of_Z 3) JS.zero = true
   ∧ ProgressSection.percent (Sample.tick 1)
     = JS.mul (JS.div (JS.of_Z 1) (JS.of_Z 3)) (JS.of_Z 100))
  ∧ (total Sample.blank = None ∧ ProgressSection.percent Sample.blank = JS.zero)
  ∧ (total Sample.unsized = Some JS.zero
     ∧ JS.is_zero JS.zero = true
     ∧ ProgressSection.percent Sample.unsized = JS.zero).
Proof.
  split; [|split].
  - split; [reflexivity|]. split; [reflexivity|].
    apply (proj1 (percent_guarded (Sample.tick 1)) (JS.of_Z 3)); reflexivity.
  - split; [reflexivity|].
    apply (proj1 (proj2 (percent_guarded Sample.blank))). reflexivity.
  - split; [reflexivity|]. split; [reflexivity|].
    apply (proj1 (proj2 (proj2 (percent_guarded Sample.unsized))) JS.zero); reflexivity.
Defined.

(** ** The polling hook *)

Lemma pull_stop_log (s : Pull.state) : Pull.log (Pull.stop s) = Pull.log s.
Proof. unfold Pull.stop. by destruct (Pull.timerRef s). Qed.

Lemma pull_stop_stop (s : Pull.state) : Pull.stop (Pull.stop s) = Pull.stop s.
Proof. unfold Pull.stop. by destruct (Pull.timerRef s) eqn:E; simpl; [|rewrite E]. Qed.

Lemma pull_stop_inflight (s : Pull.state) :
  Pull.inflight (Pull.stop s) = Pull.inflight s.
Proof. unfold Pull.stop. by destruct (Pull.timerRef s). Qed.

Lemma pull_stop_timers_size (s : Pull.state) :
  size (Pull.timers (Pull.stop s)) ≤ size (Pull.timers s).
Proof.
  unfold Pull.stop. destruct (Pull.timerRef s); simpl; [|done].
  rewrite map_size_delete. destruct (_ !! _); simpl; lia.
Qed.

Lemma pull_poll_resume_size (sid : string) (o : Pull.settled) (s : Pull.state) :
  Pull.timers s = ∅ →
  size (Pull.timers (Pull.poll_resume sid o s)) ≤ 1
  ∧ Pull.inflight (Pull.poll_resume sid o s) = Pull.inflight s.
Proof.
  intros Ht. destruct o as [data|]; simpl.
  - destruct (str_is (status data) "completed"); simpl; [rewrite Ht, map_size_empty; auto|].
    destruct (str_is (status data) "error"); simpl; [rewrite Ht, map_size_empty; auto|].
    by rewrite Ht, insert_empty, map_size_singleton.
  - by rewrite Ht, insert_empty, map_size_singleton.
Qed.

(** One event that is not a [start] keeps the loop sequential. *)
Lemma pull_step_sequential (s : Pull.state) (ev : Pull.event) :
  Pull.is_start ev = false →
  Pull.sequential s → Pull.sequential (Pull.step s ev).
Proof.
  unfold Pull.sequential. intros Hev Hs.
  destruct ev as [sid| |q o|t]; simpl in *; [done| | |].
  - rewrite pull_stop_inflight. pose proof (pull_stop_timers_size s). lia.
  - destruct (Pull.inflight s !! q) as [sid|] eqn:Hq; [|done].
    assert (size (Pull.inflight s) ≠ 0) as Hne
      by (apply map_size_non_empty_iff; intros E; by rewrite E in Hq).
    assert (Pull.timers s = ∅) as Ht by (apply map_size_empty_inv; lia).
    destruct (pull_poll_resume_size sid o (Pull.settle_query q s) Ht) as [H1 H2].
    rewrite H2. simpl. rewrite map_size_delete, Hq. simpl. lia.
  - destruct (Pull.timers s !! t) as [[sid d]|] eqn:Hq; [|done]. simpl.
    assert (size (Pull.timers s) ≠ 0) as Hne
      by (apply map_size_non_empty_iff; intros E; by rewrite E in Hq).
    assert (Pull.inflight s = ∅) as Ht by (apply map_size_empty_inv; lia).
    rewrite Ht, insert_empty, map_size_singleton, map_size_delete, Hq. simpl. lia.
Qed.

Lemma pull_run_sequential (evs : list Pull.event) (s : Pull.state) :
  Pull.no_start evs = true →
  Pull.sequential s → Pull.sequential (Pull.run s evs).
Proof.
  revert s. induction evs as [|ev evs IH]; intros s Hevs Hs; [done|].
  simpl in Hevs. apply andb_prop in Hevs as [Hev Hevs].
  apply (IH _ Hevs), pull_step_sequential; [|done].
  by destruct (Pull.is_start ev).
Qed.

Lemma pull_start_polling_at (sid : string) (s0 : Pull.state) :
  Pull.idle s0 →
  Pull.polling_at (Pull.start sid s0) sid (Pull.next_query s0) (Pull.next_timer s0)
  ∧ Pull.log (Pull.start sid s0) = Pull.log s0.
Proof.
  intros [Hi Ht]. unfold Pull.polling_at, Pull.start, Pull.stop.
  destruct (Pull.timerRef s0); simpl; by rewrite Hi, ?Ht, ?delete_empty, insert_empty.
Qed.

(** One round of the loop: the pending query settles with an outcome after
    which the loop goes on, and the timer this arms expires. *)
Lemma pull_round (s : Pull.state) (sid : string) (q : nat) (t : positive)
    (o : Pull.settled) :
  Pull.polling_at s sid q t → Pull.goes_on o = true →
  Pull.polling_at (Pull.run s [Pull.Settle q o; Pull.Fire t]) sid (S q) (Pos.succ t)
  ∧ Pull.log (Pull.run s [Pull.Settle q o; Pull.Fire t]) = Pull.log s ++ Pull.ticks [o].
Proof.
  intros (Hi & Ht & Hq & Hn) Ho. simpl.
  rewrite Hi, lookup_singleton_eq.
  destruct o as [data|]; simpl in *.
  - unfold Pull.is_terminal in Ho. apply negb_true_iff, orb_false_iff in Ho as [-> ->].
    simpl. rewrite Hn, lookup_insert_eq. simpl.
    split; [|done]. unfold Pull.polling_at. simpl.
    by rewrite Hi, Ht, Hq, Hn, delete_singleton_eq, !insert_empty, delete_singleton_eq.
  - rewrite Hn, lookup_insert_eq. simpl.
    split; [|by rewrite app_nil_r]. unfold Pull.polling_at. simpl.
    by rewrite Hi, Ht, Hq, Hn, delete_singleton_eq, !insert_empty, delete_singleton_eq.
Qed.

Lemma pull_ticks_cons (o : Pull.settled) (os : list Pull.settled) :
  Pull.ticks (o :: os) = Pull.ticks [o] ++ Pull.ticks os.
Proof. unfold Pull.ticks. simpl. by destruct o. Qed.

(** Any number of rounds. *)
Lemma pull_rounds (os : list Pull.settled) (s : Pull.state) (sid : string)
    (q : nat) (t : positive) :
  Pull.polling_at s sid q t → forallb Pull.goes_on os = true →
  (∃ t', Pull.polling_at (Pull.run s (Pull.deliver q t os)) sid (q + length os) t')
  ∧ Pull.log (Pull.run s (Pull.deliver q t os)) = Pull.log s ++ Pull.ticks os.
Proof.
  revert s q t. induction os as [|o os IH]; intros s q t Hs Hos.
  - simpl. rewrite Nat.add_0_r, app_nil_r. eauto.
  - simpl in Hos. apply andb_prop in Hos as [Ho Hos].
    destruct (pull_round s sid q t o Hs Ho) as [Hs1 Hl1].
    destruct (IH _ _ _ Hs1 Hos) as [Hs2 Hl2].
    cbn [Pull.deliver length].
    change (Pull.run s (?a :: ?b :: ?l)) with (Pull.run (Pull.run s [a; b]) l).
    split.
    + rewrite Nat.add_succ_r. exact Hs2.
    + by rewrite Hl2, Hl1, (pull_ticks_cons o os), app_assoc.
Qed.

Lemma pull_idle_step (s : Pull.state) (ev : Pull.event) :
  Pull.is_start ev = false → Pull.idle s →
  Pull.idle (Pull.step s ev) ∧ Pull.log (Pull.step s ev) = Pull.log s.
Proof.
  intros Hev [Hi Ht]. destruct ev as [sid| |q o|t]; simpl; [done| | |].
  - unfold Pull.stop, Pull.idle. destruct (Pull.timerRef s); simpl; [|done].
    by rewrite Ht, delete_empty.
  - by rewrite Hi, lookup_empty.
  - by rewrite Ht, lookup_empty.
Qed.

Lemma pull_idle_run (evs : list Pull.event) (s : Pull.state) :
  Pull.no_start evs = true → Pull.idle s →
  Pull.log (Pull.run s evs) = Pull.log s.
Proof.
  revert s. induction evs as [|ev evs IH]; intros s Hevs Hs; [done|].
  simpl in Hevs. apply andb_prop in Hevs as [Hev Hevs].
  apply negb_true_iff in Hev.
  destruct (pull_idle_step s ev Hev Hs) as [Hs' Hl].
  change (Pull.run s (ev :: evs)) with (Pull.run (Pull.step s ev) evs).
  by rewrite (IH _ Hevs Hs').
Qed.

Lemma pull_step_tracked (s : Pull.state) (ev : Pull.event) :
  Pull.is_start ev = false →
  Pull.sequential s → Pull.tracked s → Pull.tracked (Pull.step s ev).
Proof.
  unfold Pull.sequential, Pull.tracked. intros Hev Hs Htr.
  destruct ev as [sid| |q o|t]; simpl in *; [done| | |].
  - unfold Pull.stop. destruct (Pull.timerRef s) as [t|] eqn:E; simpl; [|by rewrite E].
    intros t' [Hne H]%lookup_delete_is_Some. specialize (Htr t' H). congruence.
  - destruct (Pull.inflight s !! q) as [sid|] eqn:Hq; [|done].
    assert (size (Pull.inflight s) ≠ 0) as Hne
      by (apply map_size_non_empty_iff; intros E; by rewrite E in Hq).
    assert (Pull.timers s = ∅) as Ht by (apply map_size_empty_inv; lia).
    assert (∀ d t', is_Some (Pull.timers (Pull.setTimeout sid d
              (Pull.settle_query q s)) !! t') →
            Some (Pull.next_timer s) = Some t') as Hset.
    { intros d t'. simpl. rewrite Ht, insert_empty.
      intros [x [-> _]%lookup_singleton_Some]. done. }
    destruct o as [data|]; [simpl|exact (Hset 2000%Z)].
    destruct (str_is (status data) "completed"); simpl;
      [intros t'; rewrite Ht, lookup_empty; by intros [? ?]|].
    destruct (str_is (status data) "error"); simpl;
      [intros t'; rewrite Ht, lookup_empty; by intros [? ?]|].
    exact (Hset 800%Z).
  - destruct (Pull.timers s !! t) as [[sid d]|] eqn:Hq; [|done]. simpl.
    assert (size (Pull.timers s) = 1) as Hsz.
    { assert (size (Pull.timers s) ≠ 0)
        by (apply map_size_non_empty_iff; intros E; by rewrite E in Hq). lia. }
    assert (delete t (Pull.timers s) = ∅) as ->.
    { apply map_size_empty_inv. rewrite map_size_delete, Hq. simpl. lia. }
    intros t'. rewrite lookup_empty. by intros [? ?].
Qed.

Lemma pull_run_tracked (evs : list Pull.event) (s : Pull.state) :
  Pull.no_start evs = true →
  Pull.sequential s → Pull.tracked s → Pull.tracked (Pull.run s evs).
Proof.
  revert s. induction evs as [|ev evs IH]; intros s Hevs Hs Ht; [done|].
  simpl in Hevs. apply andb_prop in Hevs as [Hev Hevs].
  apply negb_true_iff in Hev.
  apply (IH _ Hevs); [by apply pull_step_sequential|by apply pull_step_tracked].
Qed.

Lemma pull_start_sequential (sid : string) (s : Pull.state) :
  Pull.idle s → Pull.sequential (Pull.start sid s) ∧ Pull.tracked (Pull.start sid s).
Proof.
  intros [Hi Ht]. unfold Pull.sequential, Pull.tracked, Pull.start, Pull.stop.
  destruct (Pull.timerRef s); simpl;
    rewrite Hi, Ht, ?delete_empty, insert_empty, map_size_singleton, map_size_empty;
    (split; [lia|]); intros t'; rewrite lookup_empty; by intros [? ?].
Qed.

Lemma pull_stop_idle (s : Pull.state) :
  Pull.tracked s → Pull.inflight s = ∅ → Pull.idle (Pull.stop s).
Proof.
  unfold Pull.tracked, Pull.idle, Pull.stop. intros Htr Hi.
  destruct (Pull.timerRef s) as [t|] eqn:E; simpl; (split; [done|]).
  - apply map_empty. intros t'. apply eq_None_not_Some.
    intros [Hne H]%lookup_delete_is_Some. specialize (Htr t' H). congruence.
  - apply map_empty. intros t'. apply eq_None_not_Some.
    intros H. specialize (Htr t' H). congruence.
Qed.

(** ** The socket hook *)

Lemma push_stop_log (s : Push.state) : Push.log (Push.stop s) = Push.log s.
Proof.
  unfold Push.stop, Push.close_ws, Push.clear_ping.
  by destruct (Push.pingRef s), (Push.wsRef s).
Qed.

Lemma push_stop_refs (s : Push.state) :
  Push.wsRef (Push.stop s) = None ∧ Push.pingRef (Push.stop s) = None.
Proof.
  unfold Push.stop, Push.close_ws, Push.clear_ping.
  by destruct (Push.pingRef s) eqn:Ep, (Push.wsRef s) eqn:Ew; simpl; rewrite ?Ew, ?Ep.
Qed.

Lemma push_stop_stop (s : Push.state) : Push.stop (Push.stop s) = Push.stop s.
Proof.
  destruct (push_stop_refs s) as [Hw Hp].
  unfold Push.stop at 1. unfold Push.clear_ping. rewrite Hp.
  unfold Push.close_ws. by rewrite Hw.
Qed.

Lemma push_close_not_live (w : Push.websocket) : Push.live (Push.close w) = false.
Proof. by destruct w as [sid []]. Qed.

Lemma push_quiet_owned (s : Push.state) : Push.quiet s → Push.owned s.
Proof.
  intros Hq j w Hj Hw. unfold Push.quiet in Hq.
  rewrite Forall_lookup in Hq. specialize (Hq j w Hj). congruence.
Qed.

Lemma push_stop_quiet (s : Push.state) : Push.owned s → Push.quiet (Push.stop s).
Proof.
  intros Ho. unfold Push.quiet. apply Forall_lookup. intros j w.
  assert (Push.sockets (Push.clear_ping s) = Push.sockets s
          ∧ Push.wsRef (Push.clear_ping s) = Push.wsRef s) as [Hs Hw]
    by (unfold Push.clear_ping; by destruct (Push.pingRef s)).
  unfold Push.stop, Push.close_ws. rewrite Hw.
  destruct (Push.wsRef s) as [i|] eqn:Ei; simpl; rewrite Hs.
  - rewrite list_lookup_alter. case_decide as Hij.
    + subst j. destruct (Push.sockets s !! i); simpl; [|done].
      intros [= <-]. apply push_close_not_live.
    + intros Hj. destruct (Push.live w) eqn:Hl; [|done].
      specialize (Ho j w Hj Hl). congruence.
  - intros Hj. destruct (Push.live w) eqn:Hl; [|done].
    specialize (Ho j w Hj Hl). congruence.
Qed.

Lemma push_emit_owned (c : call) (s : Push.state) :
  Push.owned s → Push.owned (Push.emit c s).
Proof. done. Qed.

Lemma push_onmessage_owned (f : Push.frame) (s : Push.state) :
  Push.owned s → Push.owned (Push.onmessage f s).
Proof.
  intros Ho. destruct f as [|data]; simpl; [done|].
  repeat case_match; try done;
    by apply push_quiet_owned, push_stop_quiet.
Qed.

(** Every state the hook can reach keeps its live socket in [wsRef]. *)
Lemma push_step_owned (s : Push.state) (ev : Push.event) :
  Push.owned s → Push.owned (Push.step s ev).
Proof.
  intros Ho.
  destruct ev as [sid|sid| |i|i f|i|i|t]; simpl;
    try (by apply push_quiet_owned, push_stop_quiet); try done.
  - apply push_stop_quiet in Ho. unfold Push.quiet in Ho.
    rewrite Forall_lookup in Ho.
    intros j w. unfold Push.start. simpl.
    intros [Hj|[Hlen Hj]]%lookup_app_Some Hl.
    + specialize (Ho j w Hj). congruence.
    + apply list_lookup_singleton_Some in Hj as [Hj _]. f_equal. lia.
  - unfold Push.ready. destruct (Push.sockets s !! i) as [w|] eqn:Hi; [|done].
    simpl. destruct (Push.readyState w) eqn:Hr; try done.
    intros j w'. simpl. rewrite list_lookup_alter. case_decide as Hij.
    + subst j. intros _ _. apply (Ho i w Hi). unfold Push.live. by rewrite Hr.
    + apply Ho.
  - unfold Push.ready. destruct (Push.sockets s !! i) as [w|] eqn:Hi; [|done].
    simpl. destruct (Push.readyState w) eqn:Hr; try done.
    by apply push_onmessage_owned.
  - unfold Push.ready. destruct (Push.sockets s !! i) as [w|] eqn:Hi; [|done].
    assert (Push.owned (Push.onclose (Push.set_socket i Push.CLOSED s))).
    { unfold Push.onclose, Push.clear_ping.
      intros j w'.
      destruct (Push.pingRef (Push.set_socket i Push.CLOSED s)); simpl;
        rewrite list_lookup_alter; (case_decide as Hij; [|apply Ho]);
        subst j; rewrite Hi; simpl; by intros [= <-]. }
    simpl. by destruct (Push.readyState w).
  - destruct (Push.intervals s !! t) as [i|]; [|done].
    unfold Push.ping. by repeat case_match.
Qed.

Lemma push_run_owned (evs : list Push.event) (s : Push.state) :
  Push.owned s → Push.owned (Push.run s evs).
Proof.
  revert s. induction evs as [|ev evs IH]; intros s Hs; [done|].
  by apply IH, push_step_owned.
Qed.

Lemma push_init_owned : Push.owned Push.init.
Proof. by intros j w. Qed.

Lemma push_quiet_ready (s : Push.state) (i : nat) (r : Push.ready_state) :
  Push.quiet s → Push.ready s i = Some r → r = Push.CLOSING ∨ r = Push.CLOSED.
Proof.
  unfold Push.quiet, Push.ready. rewrite Forall_lookup. intros Hq.
  destruct (Push.sockets s !! i) as [w|] eqn:Hi; [|done].
  specialize (Hq i w Hi). unfold Push.live in Hq. intros [= <-].
  destruct (Push.readyState w); auto; done.
Qed.

(** Once no socket is live, no event but a [start] makes the hook call its
    consumer. *)
Lemma push_quiet_step (s : Push.state) (ev : Push.event) :
  Push.is_start ev = false → Push.quiet s →
  Push.quiet (Push.step s ev) ∧ Push.log (Push.step s ev) = Push.log s.
Proof.
  intros Hev Hq.
  destruct ev as [sid|sid| |i|i f|i|i|t]; simpl; try done.
  - split; [by apply push_stop_quiet, push_quiet_owned|apply push_stop_log].
  - split; [by apply push_stop_quiet, push_quiet_owned|apply push_stop_log].
  - destruct (Push.ready s i) as [r|] eqn:Hr; [|done].
    by destruct (push_quiet_ready s i r Hq Hr) as [-> | ->].
  - destruct (Push.ready s i) as [r|] eqn:Hr; [|done].
    by destruct (push_quiet_ready s i r Hq Hr) as [-> | ->].
  - assert (Push.quiet (Push.onclose (Push.set_socket i Push.CLOSED s))
            ∧ Push.log (Push.onclose (Push.set_socket i Push.CLOSED s)) = Push.log s)
      as Hclose.
    { unfold Push.onclose, Push.clear_ping, Push.quiet.
      destruct (Push.pingRef (Push.set_socket i Push.CLOSED s)); simpl;
        (split; [|done]); by apply Forall_alter. }
    by repeat case_match.
  - destruct (Push.intervals s !! t) as [i|]; [|done].
    unfold Push.ping. by repeat case_match.
Qed.

Lemma push_quiet_run (evs : list Push.event) (s : Push.state) :
  Push.no_start evs = true → Push.quiet s →
  Push.log (Push.run s evs) = Push.log s.
Proof.
  revert s. induction evs as [|ev evs IH]; intros s Hevs Hs; [done|].
  simpl in Hevs. apply andb_prop in Hevs as [Hev Hevs].
  apply negb_true_iff in Hev.
  destruct (push_quiet_step s ev Hev Hs) as [Hs' Hl].
  change (Push.run s (ev :: evs)) with (Push.run (Push.step s ev) evs).
  by rewrite (IH _ Hevs Hs').
Qed.

(** ** Sessions *)

Lemma pull_run_app (s : Pull.state) (evs1 evs2 : list Pull.event) :
  Pull.run s (evs1 ++ evs2) = Pull.run (Pull.run s evs1) evs2.
Proof. apply foldl_app. Qed.

Lemma push_run_app (s : Push.state) (evs1 evs2 : list Push.event) :
  Push.run s (evs1 ++ evs2) = Push.run (Push.run s evs1) evs2.
Proof. apply foldl_app. Qed.

Lemma pull_settle_forwarded (s : Pull.state) (sid : string) (q : nat) (data : envelope) :
  Pull.inflight s !! q = Some sid →
  Pull.log (Pull.step s (Pull.Settle q (Pull.Resolved data)))
  = Pull.log s ++ Pull.forwarded data.
Proof.
  intros Hq. simpl. rewrite Hq. unfold Pull.forwarded, Pull.is_terminal, Pull.terminal_call.
  simpl. destruct (str_is (status data) "completed"); simpl; [by rewrite <-app_assoc|].
  destruct (str_is (status data) "error"); simpl; by rewrite <-?app_assoc.
Qed.

Lemma pull_settle_terminal (s : Pull.state) (sid : string) (q : nat) (t : positive)
    (data : envelope) :
  Pull.polling_at s sid q t → Pull.is_terminal data = true →
  Pull.idle (Pull.step s (Pull.Settle q (Pull.Resolved data))).
Proof.
  intros (Hi & Ht & _) Hterm. simpl. rewrite Hi, lookup_singleton_eq.
  unfold Pull.is_terminal in Hterm. simpl. unfold Pull.idle.
  destruct (str_is (status data) "completed"); simpl;
    [by rewrite Hi, Ht, delete_singleton_eq|].
  destruct (str_is (status data) "error"); simpl;
    [by rewrite Hi, Ht, delete_singleton_eq|done].
Qed.

Lemma pull_settle_rejected (s : Pull.state) (sid : string) (q : nat) :
  Pull.inflight s !! q = Some sid →
  Pull.step s (Pull.Settle q Pull.Rejected)
  = Pull.setTimeout sid 2000 (Pull.settle_query q s).
Proof. intros Hq. simpl. by rewrite Hq. Qed.

Lemma pull_settle_goes_on (s : Pull.state) (sid : string) (q : nat) (data : envelope) :
  Pull.inflight s !! q = Some sid → Pull.is_terminal data = false →
  Pull.step s (Pull.Settle q (Pull.Resolved data))
  = Pull.setTimeout sid 800 (Pull.emit (onTick data) (Pull.settle_query q s)).
Proof.
  intros Hq [H1 H2]%orb_false_iff. simpl. by rewrite Hq, H1, H2.
Qed.

Lemma pull_session (s0 : Pull.state) (sid : string) (os : list Pull.settled) :
  Pull.idle s0 → forallb Pull.goes_on os = true →
  (∃ t, Pull.polling_at (Pull.session s0 sid os) sid (Pull.next_query s0 + length os) t)
  ∧ Pull.log (Pull.session s0 sid os) = Pull.log s0 ++ Pull.ticks os.
Proof.
  intros Hs0 Hos. destruct (pull_start_polling_at sid s0 Hs0) as [Hp Hl].
  destruct (pull_rounds os _ _ _ _ Hp Hos) as [Hp' Hl'].
  split; [done|]. unfold Pull.session. by rewrite Hl', Hl.
Qed.

Lemma pull_ticks_resolved (es : list envelope) :
  Pull.ticks (Pull.Resolved <$> es) = onTick <$> es.
Proof. induction es as [|e es IH]; [done|]. cbn. f_equal. exact IH. Qed.

Lemma pull_goes_on_resolved (es : list envelope) :
  forallb (λ e, negb (Pull.is_terminal e)) es = true →
  forallb Pull.goes_on (Pull.Resolved <$> es) = true.
Proof.
  induction es as [|e es IH]; [done|]. cbn.
  intros [-> H]%andb_prop. exact (IH H).
Qed.

Lemma push_stop_length (s : Push.state) :
  length (Push.sockets (Push.stop s)) = length (Push.sockets s).
Proof.
  unfold Push.stop, Push.close_ws, Push.clear_ping.
  destruct (Push.pingRef s), (Push.wsRef s); simpl; by rewrite ?length_alter.
Qed.

Lemma push_session_open (s0 : Push.state) (sid : string) :
  Push.open_at (Push.session s0 sid []) (length (Push.sockets s0))
  ∧ Push.log (Push.session s0 sid []) = Push.log s0.
Proof.
  unfold Push.session, Push.open_at. simpl.
  unfold Push.ready, Push.start. simpl.
  rewrite <-(push_stop_length s0), lookup_app_r, Nat.sub_diag by done. simpl.
  rewrite list_lookup_alter_eq, lookup_app_r, Nat.sub_diag by done. simpl.
  by rewrite push_stop_log.
Qed.

Lemma push_message_forwarded (s : Push.state) (i : nat) (data : envelope) :
  Push.ready s i = Some Push.OPEN →
  Push.log (Push.step s (Push.Message i (Push.Json data)))
  = Push.log s ++ Push.forwarded data.
Proof.
  intros Hr. simpl. rewrite Hr. simpl.
  unfold Push.forwarded, Push.is_pong, Push.is_terminal, Push.terminal_calls,
    Push.is_completed, Push.is_error.
  destruct (str_is (type data) "pong"); [by rewrite app_nil_r|].
  destruct (_ || _); simpl; [by rewrite push_stop_log; simpl; rewrite <-app_assoc|].
  destruct (_ || _); simpl; [by rewrite push_stop_log|done].
Qed.

Lemma push_message_progress (s : Push.state) (i : nat) (data : envelope) :
  Push.open_at s i → Push.is_progress data = true →
  Push.open_at (Push.step s (Push.Message i (Push.Json data))) i.
Proof.
  intros [Hw Hr] Hp. simpl. rewrite Hr. simpl.
  unfold Push.is_progress, Push.is_pong, Push.is_terminal,
    Push.is_completed, Push.is_error in Hp.
  apply negb_true_iff, orb_false_iff in Hp as [-> [-> ->]%orb_false_iff].
  done.
Qed.

Lemma push_message_terminal (s : Push.state) (i : nat) (data : envelope) :
  Push.owned s → Push.ready s i = Some Push.OPEN →
  Push.is_pong data = false → Push.is_terminal data = true →
  Push.quiet (Push.step s (Push.Message i (Push.Json data))).
Proof.
  intros Ho Hr Hp Ht. simpl. rewrite Hr. simpl.
  unfold Push.is_pong in Hp. rewrite Hp.
  unfold Push.is_terminal, Push.is_completed, Push.is_error in Ht.
  destruct (str_is (type data) "completed" || str_is (status data) "completed");
    simpl in Ht; [by apply push_stop_quiet|].
  rewrite Ht. by apply push_stop_quiet.
Qed.

Lemma push_forwarded_progress (data : envelope) :
  Push.is_progress data = true → Push.forwarded data = [onTick data].
Proof.
  unfold Push.is_progress, Push.forwarded.
  by intros [-> ->]%negb_true_iff%orb_false_iff.
Qed.

Lemma push_frames_progress (es : list envelope) (s : Push.state) (i : nat) :
  Push.open_at s i → forallb Push.is_progress es = true →
  Push.open_at (Push.run s (Push.Message i <$> (Push.Json <$> es))) i
  ∧ Push.log (Push.run s (Push.Message i <$> (Push.Json <$> es)))
    = Push.log s ++ (onTick <$> es).
Proof.
  revert s. induction es as [|e es IH]; intros s Hs Hes.
  - simpl. by rewrite app_nil_r.
  - simpl in Hes. apply andb_prop in Hes as [He Hes].
    pose proof (push_message_progress s i e Hs He) as Hs1.
    destruct (IH _ Hs1 Hes) as [Hs2 Hl2].
    change (Push.run s (Push.Message i <$> (Push.Json <$> e :: es)))
      with (Push.run (Push.step s (Push.Message i (Push.Json e)))
              (Push.Message i <$> (Push.Json <$> es))).
    split; [done|]. rewrite Hl2, (push_message_forwarded s i e (proj2 Hs)).
    by rewrite (push_forwarded_progress e He), <-app_assoc.
Qed.

(** ** Order of the callbacks *)

(** C2: when a transport delivers the non-terminal envelopes [es] and then
    the terminal envelope [term], the hook calls [onTick] once for each
    envelope of [es], in order, then makes its terminal callback once, as the
    last call; after that no event short of a new [start] makes it call the
    consumer.  The polling hook is started from any state with nothing
    pending, the socket hook from any state it can reach. *)
Theorem callbacks_in_order (sid : string) (es : list envelope) (term : envelope) :
  (∀ s0, Pull.idle s0 →
     forallb (λ e, negb (Pull.is_terminal e)) es = true →
     Pull.is_terminal term = true →
     Pull.log (Pull.answers s0 sid es term)
     = Pull.log s0 ++ (onTick <$> es) ++ [onTick term; Pull.terminal_call term]
     ∧ Pull.silent (Pull.answers s0 sid es term))
  ∧ (∀ evs0,
     forallb Push.is_progress es = true →
     Push.is_pong term = false → Push.is_terminal term = true →
     Push.log (Push.session (Push.run Push.init evs0) sid (Push.Json <$> (es ++ [term])))
     = Push.log (Push.run Push.init evs0) ++ (onTick <$> es) ++ Push.terminal_calls term
     ∧ Push.silent (Push.session (Push.run Push.init evs0) sid (Push.Json <$> (es ++ [term])))).
Proof.
  split.
  - intros s0 Hs0 Hes Hterm.
    destruct (pull_session s0 sid (Pull.Resolved <$> es) Hs0
                (pull_goes_on_resolved es Hes)) as [[t Hp] Hl].
    rewrite length_fmap in Hp. unfold Pull.answers. split.
    + destruct Hp as [Hi _].
      rewrite (pull_settle_forwarded _ sid) by (by rewrite Hi, lookup_singleton_eq).
      rewrite Hl, pull_ticks_resolved. unfold Pull.forwarded. rewrite Hterm.
      by rewrite <-app_assoc.
    + intros evs Hevs. apply pull_idle_run; [done|].
      by apply (pull_settle_terminal _ sid _ t).
  - intros evs0 Hes Hp Hterm. set (s0 := Push.run Push.init evs0).
    set (i := length (Push.sockets s0)).
    assert (Push.session s0 sid (Push.Json <$> (es ++ [term]))
            = Push.step (Push.run (Push.session s0 sid [])
                           (Push.Message i <$> (Push.Json <$> es)))
                        (Push.Message i (Push.Json term))) as ->.
    { unfold Push.session. fold i. rewrite !fmap_app. simpl.
      change (Push.Open i :: ?l ++ ?m) with ([Push.Open i] ++ l ++ m).
      by rewrite !push_run_app. }
    destruct (push_session_open s0 sid) as [Ho Hl0]. fold i in Ho.
    destruct (push_frames_progress es _ i Ho Hes) as [[Hw Hr] Hl].
    assert (Push.owned (Push.run (Push.session s0 sid [])
                          (Push.Message i <$> (Push.Json <$> es)))) as Hown.
    { unfold Push.session. apply push_run_owned, push_run_owned.
      apply (push_step_owned _ (Push.Start sid)).
      apply push_run_owned, push_init_owned. }
    split.
    + rewrite (push_message_forwarded _ _ _ Hr), Hl, Hl0.
      unfold Push.forwarded. by rewrite Hp, Hterm, <-app_assoc.
    + intros evs Hevs. apply push_quiet_run; [done|].
      by apply push_message_terminal.
Qed.

Lemma callbacks_in_order_witness :
  (Pull.idle Pull.init
   ∧ forallb (λ e, negb (Pull.is_terminal e)) [Sample.tick 1; Sample.tick 2] = true
   ∧ Pull.is_terminal Sample.done_all = true
   ∧ Pull.log (Pull.answers Pull.init "abc" [Sample.tick 1; Sample.tick 2] Sample.done_all)
     = [onTick (Sample.tick 1); onTick (Sample.tick 2);
        onTick Sample.done_all; onComplete Sample.done_all])
  ∧ (forallb Push.is_progress [Sample.tick 1; Sample.tick 2] = true
     ∧ Push.is_pong Sample.failed = false
     ∧ Push.is_terminal Sample.failed = true
     ∧ Push.log (Push.session Push.init "abc"
                   (Push.Json <$> [Sample.tick 1; Sample.tick 2; Sample.failed]))
       = [onTick (Sample.tick 1); onTick (Sample.tick 2); onError "rate limited"]).
Proof.
  split.
  - split; [split; reflexivity|]. split; [reflexivity|]. split; [reflexivity|].
    apply (proj1 (callbacks_in_order "abc" [Sample.tick 1; Sample.tick 2] Sample.done_all)
             Pull.init); [split; reflexivity|reflexivity|reflexivity].
  - split; [reflexivity|]. split; [reflexivity|]. split; [reflexivity|].
    apply (proj2 (callbacks_in_order "abc" [Sample.tick 1; Sample.tick 2] Sample.failed)
             []); reflexivity.
Defined.

(** ** The tick before the terminal callback *)

Lemma str_is_Some (s lit : string) : s = lit → str_is (Some s) lit = true.
Proof. intros ->. apply String.eqb_refl. Qed.

(** C3 fails for an [error] envelope on the socket: [onError] is the only
    call made. *)
Lemma tick_before_terminal_fails :
  ¬ tick_then_terminal
      (Push.log (Push.session Push.init "abc" [Push.Json Sample.failed]))
      Sample.failed.
Proof.
  intros (pre & c & H & _).
  change (Push.log _) with [onError "rate limited"] in H.
  apply (f_equal length) in H. rewrite length_app in H. simpl in H. lia.
Qed.

(** C3, amended: for a terminal envelope on the polling hook, and for a
    [completed] envelope on the socket hook, [onTick] is called with the
    envelope immediately before the terminal callback; for an [error]
    envelope on the socket hook [onError] alone is called. *)
Theorem tick_before_terminal (data : envelope) :
  (∀ s q sid, Pull.inflight s !! q = Some sid → Pull.is_terminal data = true →
     Pull.log (Pull.step s (Pull.Settle q (Pull.Resolved data)))
     = Pull.log s ++ [onTick data; Pull.terminal_call data]
     ∧ tick_then_terminal
         (Pull.log (Pull.step s (Pull.Settle q (Pull.Resolved data)))) data)
  ∧ (∀ s i, Push.ready s i = Some Push.OPEN →
     Push.is_pong data = false → Push.is_completed data = true →
     Push.log (Push.step s (Push.Message i (Push.Json data)))
     = Push.log s ++ [onTick data; onComplete data]
     ∧ tick_then_terminal
         (Push.log (Push.step s (Push.Message i (Push.Json data)))) data)
  ∧ (∀ s i, Push.ready s i = Some Push.OPEN →
     Push.is_pong data = false → Push.is_completed data = false →
     Push.is_error data = true →
     Push.log (Push.step s (Push.Message i (Push.Json data)))
     = Push.log s ++ [onError (JS.or_else (error data) "Processing error")]).
Proof.
  split; [|split].
  - intros s q sid Hq Ht.
    rewrite (pull_settle_forwarded s sid q data Hq). unfold Pull.forwarded.
    rewrite Ht. split; [done|]. exists (Pull.log s), (Pull.terminal_call data).
    split; [done|]. unfold Pull.terminal_call. by case_match.
  - intros s i Hr Hp Hc.
    rewrite (push_message_forwarded s i data Hr).
    unfold Push.forwarded, Push.is_terminal, Push.terminal_calls. rewrite Hp, Hc.
    split; [done|]. by exists (Push.log s), (onComplete data).
  - intros s i Hr Hp Hc He.
    rewrite (push_message_forwarded s i data Hr).
    unfold Push.forwarded, Push.is_terminal, Push.terminal_calls.
    by rewrite Hp, Hc, He.
Qed.

Lemma tick_before_terminal_witness :
  (Pull.inflight (Pull.start "abc" Pull.init) !! 0 = Some "abc"
   ∧ Pull.is_terminal Sample.failed = true
   ∧ Pull.log (Pull.step (Pull.start "abc" Pull.init)
                 (Pull.Settle 0 (Pull.Resolved Sample.failed)))
     = [onTick Sample.failed; onError "rate limited"])
  ∧ (Push.ready (Push.session Push.init "abc" []) 0 = Some Push.OPEN
     ∧ Push.is_pong Sample.done_all = false
     ∧ Push.is_completed Sample.done_all = true
     ∧ Push.log (Push.step (Push.session Push.init "abc" [])
                   (Push.Message 0 (Push.Json Sample.done_all)))
       = [onTick Sample.done_all; onComplete Sample.done_all])
  ∧ (Push.is_completed Sample.failed = false
     ∧ Push.is_error Sample.failed = true
     ∧ Push.log (Push.step (Push.session Push.init "abc" [])
                   (Push.Message 0 (Push.Json Sample.failed)))
       = [onError "rate limited"]).
Proof.
  split; [|split].
  - split; [reflexivity|]. split; [reflexivity|].
    apply (proj1 (tick_before_terminal Sample.failed)
             (Pull.start "abc" Pull.init) 0 "abc"); reflexivity.
  - split; [reflexivity|]. split; [reflexivity|]. split; [reflexivity|].
    apply (proj1 (proj2 (tick_before_terminal Sample.done_all))
             (Push.session Push.init "abc" []) 0); reflexivity.
  - split; [reflexivity|]. split; [reflexivity|].
    apply (proj2 (proj2 (tick_before_terminal Sample.failed))
             (Push.session Push.init "abc" []) 0); reflexivity.
Defined.

(** ** The discriminator *)

(** C5 fails on the polling hook: an envelope that says [completed] in
    [type] only does not end the loop. *)
Lemma pull_ignores_type : ¬ Pull.completes Sample.completed_by_type.
Proof.
  intros H. specialize (H (Pull.start "abc" Pull.init) 0 "abc" eq_refl).
  vm_compute in H. discriminate H.
Qed.

(** C5, amended: the socket hook reads [type] and [status] alike, so a
    frame that is not a keepalive answer and says [completed] in either field
    is a completion, and one that says [error] in either field and
    [completed] in neither is an error; the polling hook reads [status] only,
    whatever [type] says. *)
Theorem discriminators (data : envelope) :
  (∀ s i, Push.ready s i = Some Push.OPEN → Push.is_pong data = false →
     (type data = Some "completed" ∨ status data = Some "completed" →
      Push.step s (Push.Message i (Push.Json data))
      = Push.stop (Push.emit (onComplete data) (Push.emit (onTick data) s)))
     ∧ (Push.is_completed data = false →
        type data = Some "error" ∨ status data = Some "error" →
        Push.step s (Push.Message i (Push.Json data))
        = Push.stop (Push.emit
            (onError (JS.or_else (error data) "Processing error")) s)))
  ∧ (status data = Some "completed" → Pull.completes data)
  ∧ (∀ s q sid, Pull.inflight s !! q = Some sid → status data = Some "error" →
     Pull.step s (Pull.Settle q (Pull.Resolved data))
     = Pull.emit (onError (JS.or_else (error data) "Processing error"))
         (Pull.emit (onTick data) (Pull.settle_query q s)))
  ∧ (∀ s q sid, Pull.inflight s !! q = Some sid → Pull.is_terminal data = false →
     Pull.step s (Pull.Settle q (Pull.Resolved data))
     = Pull.setTimeout sid 800 (Pull.emit (onTick data) (Pull.settle_query q s))).
Proof.
  split; [|split; [|split]].
  - intros s i Hr Hp. unfold Push.is_pong in Hp. simpl. rewrite Hr. simpl.
    rewrite Hp. split.
    + intros [H|H]; rewrite H, (str_is_Some _ _ eq_refl); [done|].
      by rewrite orb_true_r.
    + unfold Push.is_completed. intros -> [H|H];
        rewrite H, (str_is_Some _ _ eq_refl); [done|].
      by rewrite orb_true_r.
  - intros H s q sid Hq. simpl. rewrite Hq, H. simpl. by rewrite <-app_assoc.
  - intros s q sid Hq H. simpl. by rewrite Hq, H.
  - intros s q sid Hq H. by apply pull_settle_goes_on.
Qed.

Lemma discriminators_witness :
  (Push.ready (Push.session Push.init "abc" []) 0 = Some Push.OPEN
   ∧ Push.is_pong Sample.completed_by_status = false
   ∧ Push.log (Push.step (Push.session Push.init "abc" [])
                 (Push.Message 0 (Push.Json Sample.completed_by_status)))
     = [onTick Sample.completed_by_status; onComplete Sample.completed_by_status])
  ∧ (status Sample.completed_by_status = Some "completed"
     ∧ Pull.completes Sample.completed_by_status)
  ∧ (Pull.inflight (Pull.start "abc" Pull.init) !! 0 = Some "abc"
     ∧ Pull.is_terminal Sample.completed_by_type = false
     ∧ Pull.timers (Pull.step (Pull.start "abc" Pull.init)
                      (Pull.Settle 0 (Pull.Resolved Sample.completed_by_type)))
         !! 1%positive = Some ("abc", 800%Z)).
Proof.
  split; [|split].
  - split; [reflexivity|]. split; [reflexivity|].
    rewrite (proj1 (proj1 (discriminators Sample.completed_by_status)
               (Push.session Push.init "abc" []) 0 eq_refl eq_refl)
               (or_intror eq_refl)).
    reflexivity.
  - split; [reflexivity|].
    apply (proj1 (proj2 (discriminators Sample.completed_by_status))). reflexivity.
  - split; [reflexivity|]. split; [reflexivity|].
    rewrite (proj2 (proj2 (proj2 (discriminators Sample.completed_by_type)))
               (Pull.start "abc" Pull.init) 0 "abc" eq_refl eq_refl).
    reflexivity.
Defined.

(** ** Malformed frames and keepalive answers *)

(** C7: a frame that does not parse changes nothing in the socket hook, and
    a query that fails makes the polling hook call nobody; in either hook the
    envelope before and the envelope after the failure are both forwarded. *)
Theorem malformed_dropped (sid : string) (e1 e2 : envelope) :
  (∀ s i, Push.step s (Push.Message i Push.Malformed) = s)
  ∧ (∀ evs0, Push.is_progress e1 = true →
     Push.log (Push.session (Push.run Push.init evs0) sid
                 [Push.Json e1; Push.Malformed; Push.Json e2])
     = Push.log (Push.run Push.init evs0) ++ [onTick e1] ++ Push.forwarded e2)
  ∧ (Push.is_pong e2 = false → Push.forwarded e2 ≠ [])
  ∧ (∀ s q, Pull.inflight s !! q = Some sid →
     Pull.log (Pull.step s (Pull.Settle q Pull.Rejected)) = Pull.log s)
  ∧ (∀ s0, Pull.idle s0 → Pull.is_terminal e1 = false →
     Pull.log (Pull.step (Pull.session s0 sid [Pull.Resolved e1; Pull.Rejected])
                 (Pull.Settle (Pull.next_query s0 + 2) (Pull.Resolved e2)))
     = Pull.log s0 ++ [onTick e1] ++ Pull.forwarded e2).
Proof.
  assert (∀ s i, Push.step s (Push.Message i Push.Malformed) = s) as Hdrop.
  { intros s i. simpl. by repeat case_match. }
  split; [done|]. split; [|split; [|split]].
  - intros evs0 He1. set (s0 := Push.run Push.init evs0).
    set (i := length (Push.sockets s0)).
    destruct (push_session_open s0 sid) as [Ho Hl0]. fold i in Ho.
    pose proof (push_message_progress _ i e1 Ho He1) as [Hw Hr].
    change (Push.session s0 sid [Push.Json e1; Push.Malformed; Push.Json e2])
      with (Push.step (Push.step (Push.step (Push.session s0 sid [])
              (Push.Message i (Push.Json e1))) (Push.Message i Push.Malformed))
              (Push.Message i (Push.Json e2))).
    rewrite Hdrop, (push_message_forwarded _ _ e2 Hr).
    rewrite (push_message_forwarded _ _ e1 (proj2 Ho)), Hl0.
    by rewrite (push_forwarded_progress e1 He1), <-app_assoc.
  - unfold Push.forwarded, Push.terminal_calls. intros ->. by repeat case_match.
  - intros s q Hq. by rewrite (pull_settle_rejected s sid q Hq).
  - intros s0 Hs0 He1.
    destruct (pull_session s0 sid [Pull.Resolved e1; Pull.Rejected] Hs0)
      as [[t [Hi _]] Hl]; [by simpl; rewrite He1|].
    rewrite (pull_settle_forwarded _ sid) by (by rewrite Hi, lookup_singleton_eq).
    by rewrite Hl, <-app_assoc.
Qed.

Lemma malformed_dropped_witness :
  (Push.is_progress (Sample.tick 1) = true
   ∧ Push.log (Push.session Push.init "abc"
                 [Push.Json (Sample.tick 1); Push.Malformed; Push.Json (Sample.tick 2)])
     = [onTick (Sample.tick 1); onTick (Sample.tick 2)])
  ∧ (Pull.idle Pull.init
     ∧ Pull.is_terminal (Sample.tick 1) = false
     ∧ Pull.log (Pull.step
                   (Pull.session Pull.init "abc"
                      [Pull.Resolved (Sample.tick 1); Pull.Rejected])
                   (Pull.Settle 2 (Pull.Resolved (Sample.tick 2))))
       = [onTick (Sample.tick 1); onTick (Sample.tick 2)]).
Proof.
  split.
  - split; [reflexivity|].
    apply (proj1 (proj2 (malformed_dropped "abc" (Sample.tick 1) (Sample.tick 2))) []).
    reflexivity.
  - split; [split; reflexivity|]. split; [reflexivity|].
    apply (proj2 (proj2 (proj2 (proj2
             (malformed_dropped "abc" (Sample.tick 1) (Sample.tick 2))))) Pull.init);
      [split; reflexivity|reflexivity].
Defined.

(** C8: a keepalive answer, which is a frame whose [type] is ['pong'],
    leaves the socket hook as it was: no callback is made and nothing of the
    session changes. *)
Theorem keepalive_discarded (s : Push.state) (i : nat) (data : envelope) :
  type data = Some "pong" →
  Push.step s (Push.Message i (Push.Json data)) = s.
Proof.
  intros H. simpl. rewrite H. simpl. by repeat case_match.
Qed.

Lemma keepalive_discarded_witness :
  type Sample.pong = Some "pong"
  ∧ Push.step (Push.session Push.init "abc" [Push.Json (Sample.tick 1)])
      (Push.Message 0 (Push.Json Sample.pong))
    = Push.session Push.init "abc" [Push.Json (Sample.tick 1)].
Proof.
  split; [reflexivity|].
  apply (keepalive_discarded
           (Push.session Push.init "abc" [Push.Json (Sample.tick 1)]) 0 Sample.pong).
  reflexivity.
Defined.

(** ** stop *)

Lemma push_stop_ready (s : Push.state) (i : nat) (r : Push.ready_state) :
  Push.wsRef s = Some i → Push.ready s i = Some r →
  Push.ready (Push.stop s) i
  = Some (match r with
          | Push.CONNECTING | Push.OPEN => Push.CLOSING
          | Push.CLOSING | Push.CLOSED => r
          end).
Proof.
  unfold Push.ready, Push.stop, Push.close_ws, Push.clear_ping.
  intros Hw. destruct (Push.pingRef s); simpl; rewrite Hw; simpl;
    rewrite list_lookup_alter_eq;
    (destruct (Push.sockets s !! i) as [[sid r']|]; [|done]);
    simpl; intros [= ->]; by destruct r.
Qed.

(** C9: [stop] of either hook is idempotent, does nothing to a hook that
    was never started, makes no callback, cancels the timer its ref holds
    and leaves both refs empty; on the socket hook it closes the socket
    [wsRef] holds, whether open or still connecting. *)
Theorem stop_idempotent :
  (∀ s, Pull.stop (Pull.stop s) = Pull.stop s)
  ∧ Pull.stop Pull.init = Pull.init
  ∧ (∀ s, Pull.log (Pull.stop s) = Pull.log s)
  ∧ (∀ s, Pull.timerRef (Pull.stop s) = None)
  ∧ (∀ s t, Pull.timerRef s = Some t → Pull.timers (Pull.stop s) !! t = None)
  ∧ (∀ s, Push.stop (Push.stop s) = Push.stop s)
  ∧ Push.stop Push.init = Push.init
  ∧ (∀ s, Push.log (Push.stop s) = Push.log s)
  ∧ (∀ s, Push.wsRef (Push.stop s) = None ∧ Push.pingRef (Push.stop s) = None)
  ∧ (∀ s t, Push.pingRef s = Some t → Push.intervals (Push.stop s) !! t = None)
  ∧ (∀ s i r, Push.wsRef s = Some i → Push.ready s i = Some r →
     Push.ready (Push.stop s) i
     = Some (match r with
             | Push.CONNECTING | Push.OPEN => Push.CLOSING
             | Push.CLOSING | Push.CLOSED => r
             end)).
Proof.
  split; [apply pull_stop_stop|]. split; [done|].
  split; [apply pull_stop_log|]. split.
  { intros s. unfold Pull.stop. by destruct (Pull.timerRef s) eqn:E. }
  split.
  { intros s t H. unfold Pull.stop. rewrite H. simpl. apply lookup_delete_eq. }
  split; [apply push_stop_stop|]. split; [done|].
  split; [apply push_stop_log|]. split; [apply push_stop_refs|]. split.
  { intros s t H. unfold Push.stop, Push.close_ws, Push.clear_ping. rewrite H.
    destruct (Push.wsRef _); simpl; apply lookup_delete_eq. }
  apply push_stop_ready.
Qed.

Lemma stop_idempotent_witness :
  (Pull.timerRef (Pull.step (Pull.start "abc" Pull.init)
                    (Pull.Settle 0 Pull.Rejected)) = Some 1%positive
   ∧ Pull.timers (Pull.stop (Pull.step (Pull.start "abc" Pull.init)
                               (Pull.Settle 0 Pull.Rejected))) !! 1%positive = None)
  ∧ (Push.wsRef (Push.start "abc" Push.init) = Some 0
     ∧ Push.ready (Push.start "abc" Push.init) 0 = Some Push.CONNECTING
     ∧ Push.ready (Push.stop (Push.start "abc" Push.init)) 0 = Some Push.CLOSING)
  ∧ (Push.pingRef (Push.session Push.init "abc" []) = Some 1%positive
     ∧ Push.intervals (Push.stop (Push.session Push.init "abc" [])) !! 1%positive = None).
Proof.
  destruct stop_idempotent as (_ & _ & _ & _ & Ht & _ & _ & _ & _ & Hp & Hr).
  split; [|split].
  - split; [reflexivity|]. apply Ht. reflexivity.
  - split; [reflexivity|]. split; [reflexivity|].
    apply (Hr (Push.start "abc" Push.init) 0 Push.CONNECTING); reflexivity.
  - split; [reflexivity|]. apply Hp. reflexivity.
Defined.

Lemma pull_stop_next_query (s : Pull.state) :
  Pull.next_query (Pull.stop s) = Pull.next_query s.
Proof. unfold Pull.stop. by destruct (Pull.timerRef s). Qed.

Lemma pull_stop_timers (s : Pull.state) (t : positive) (x : string * Z) :
  Pull.timers s !! t = Some x → Pull.timerRef s ≠ Some t →
  Pull.timers (Pull.stop s) !! t = Some x.
Proof.
  intros Ht Hne. unfold Pull.stop. destruct (Pull.timerRef s) as [t'|]; [|done].
  simpl. rewrite lookup_delete_ne; [done|congruence].
Qed.

Lemma pull_forwarded_grows (l : list call) (data : envelope) :
  l ++ Pull.forwarded data ≠ l.
Proof.
  intros H. apply (f_equal length) in H. rewrite length_app in H.
  unfold Pull.forwarded in H. simpl in H. lia.
Qed.

(** C1 fails on the polling hook: [stop()] called while a query is in
    flight finds no timer to clear, and the answer to that query is
    forwarded when it comes. *)
Lemma stop_misses_inflight_query :
  ¬ Pull.silent_after_stop (Pull.start "abc" Pull.init).
Proof.
  intros H.
  specialize (H [Pull.Settle 0 (Pull.Resolved (Sample.tick 1))] eq_refl).
  vm_compute in H. discriminate H.
Qed.

(** C1, amended: after [stop()] the socket hook makes no callback before
    the next [start], whatever state it had reached and whatever the browser
    dispatches.  The polling hook makes no callback after [stop()] exactly
    when, at the call, no query is in flight and no timer is pending but the
    one [timerRef] holds; that is so whenever no query is in flight in a
    session started with nothing pending and not started again.  A query in
    flight at [stop()] is not cancelled: when it resolves, its envelope is
    forwarded. *)
Theorem stop_silences :
  (∀ evs, Push.silent_after_stop (Push.run Push.init evs))
  ∧ (∀ s, Pull.silent_after_stop s ↔ Pull.inflight s = ∅ ∧ Pull.tracked s)
  ∧ (∀ s0 sid evs, Pull.idle s0 → Pull.no_start evs = true →
     Pull.inflight (Pull.run (Pull.start sid s0) evs) = ∅ →
     Pull.silent_after_stop (Pull.run (Pull.start sid s0) evs))
  ∧ (∀ s q sid data, Pull.inflight s !! q = Some sid →
     Pull.log (Pull.step (Pull.stop s) (Pull.Settle q (Pull.Resolved data)))
     = Pull.log s ++ Pull.forwarded data).
Proof.
  assert (∀ s q sid data, Pull.inflight s !! q = Some sid →
            Pull.log (Pull.step (Pull.stop s) (Pull.Settle q (Pull.Resolved data)))
            = Pull.log s ++ Pull.forwarded data) as Hdeliver.
  { intros s q sid data Hq.
    rewrite (pull_settle_forwarded _ sid) by (by rewrite pull_stop_inflight).
    by rewrite pull_stop_log. }
  assert (∀ s, Pull.inflight s = ∅ → Pull.tracked s → Pull.silent_after_stop s)
    as Hsilent.
  { intros s Hi Htr evs Hevs. rewrite pull_idle_run, pull_stop_log; [done..|].
    by apply pull_stop_idle. }
  split; [|split; [|split]]; [| |..|done].
  - intros evs evs' Hevs'. rewrite push_quiet_run, push_stop_log; [done..|].
    apply push_stop_quiet, push_run_owned, push_init_owned.
  - intros s. split; [|by intros [? ?]; apply Hsilent].
    intros Hsil. split.
    + apply map_empty. intros q.
      destruct (Pull.inflight s !! q) as [sid|] eqn:Hq; [|done]. exfalso.
      specialize (Hsil [Pull.Settle q (Pull.Resolved Sample.blank)] eq_refl).
      change (Pull.run ?s' [?e]) with (Pull.step s' e) in Hsil.
      rewrite (Hdeliver s q sid _ Hq) in Hsil.
      by apply pull_forwarded_grows in Hsil.
    + intros t [[sid d] Ht].
      destruct (decide (Pull.timerRef s = Some t)) as [|Hne]; [done|]. exfalso.
      specialize (Hsil [Pull.Fire t;
                        Pull.Settle (Pull.next_query s) (Pull.Resolved Sample.blank)]
                       eq_refl).
      change (Pull.run ?s' [?e1; ?e2]) with (Pull.step (Pull.step s' e1) e2) in Hsil.
      assert (Pull.step (Pull.stop s) (Pull.Fire t)
              = Pull.poll sid (Pull.expire_timer t (Pull.stop s))) as Hfire
        by (simpl; by rewrite (pull_stop_timers s t _ Ht Hne)).
      rewrite Hfire in Hsil.
      rewrite (pull_settle_forwarded _ sid) in Hsil.
      * simpl in Hsil. rewrite pull_stop_log in Hsil.
        by apply pull_forwarded_grows in Hsil.
      * simpl. rewrite pull_stop_next_query. apply lookup_insert_eq.
  - intros s0 sid evs Hs0 Hevs Hi.
    destruct (pull_start_sequential sid s0 Hs0) as [Hseq Htr].
    apply Hsilent; [done|]. by apply pull_run_tracked.
Qed.

Lemma stop_silences_witness :
  (Pull.idle Pull.init
   ∧ Pull.no_start [Pull.Settle 0 (Pull.Resolved (Sample.tick 1))] = true
   ∧ Pull.inflight (Pull.run (Pull.start "abc" Pull.init)
                      [Pull.Settle 0 (Pull.Resolved (Sample.tick 1))]) = ∅
   ∧ Pull.silent_after_stop
       (Pull.run (Pull.start "abc" Pull.init)
          [Pull.Settle 0 (Pull.Resolved (Sample.tick 1))]))
  ∧ (Pull.inflight (Pull.run Pull.init [Pull.Start "a"; Pull.Start "b"]) !! 0
     = Some "a"
     ∧ Pull.log (Pull.step
                   (Pull.stop (Pull.run Pull.init [Pull.Start "a"; Pull.Start "b"]))
                   (Pull.Settle 0 (Pull.Resolved (Sample.tick 1))))
       = [onTick (Sample.tick 1)]).
Proof.
  destruct stop_silences as (_ & _ & Hsession & Hdeliver). split.
  - split; [split; reflexivity|]. split; [reflexivity|]. split; [reflexivity|].
    apply (Hsession Pull.init "abc"
             [Pull.Settle 0 (Pull.Resolved (Sample.tick 1))]);
      [split; reflexivity|reflexivity|reflexivity].
  - split; [reflexivity|].
    apply (Hdeliver (Pull.run Pull.init [Pull.Start "a"; Pull.Start "b"]) 0 "a"
             (Sample.tick 1)).
    reflexivity.
Defined.

(** ** The polling loop *)

Lemma pull_failures (n : nat) :
  forallb Pull.goes_on (replicate n Pull.Rejected) = true
  ∧ Pull.ticks (replicate n Pull.Rejected) = [].
Proof. induction n as [|n [IH1 IH2]]; [done|]. split; [exact IH1|exact IH2]. Qed.

Lemma pull_step_fresh (s : Pull.state) (ev : Pull.event) :
  Pull.fresh s → Pull.fresh (Pull.step s ev).
Proof.
  unfold Pull.fresh. intros Hf.
  assert (∀ sid s', (∀ q, is_Some (Pull.inflight s' !! q) → q < Pull.next_query s') →
            ∀ q, is_Some (Pull.inflight (Pull.poll sid s') !! q) →
                 q < Pull.next_query (Pull.poll sid s')) as Hpoll.
  { intros sid s' Hf' q. simpl. rewrite lookup_insert_is_Some.
    intros [<-|[_ H]]; [lia|]. specialize (Hf' q H). lia. }
  destruct ev as [sid| |q0 o|t0]; simpl.
  - apply Hpoll. intros q. rewrite pull_stop_inflight, pull_stop_next_query. apply Hf.
  - intros q. rewrite pull_stop_inflight, pull_stop_next_query. apply Hf.
  - destruct (Pull.inflight s !! q0) as [sid0|]; [|done].
    assert (∀ q, is_Some (delete q0 (Pull.inflight s) !! q) → q < Pull.next_query s)
      as Hdel by (intros q [_ H]%lookup_delete_is_Some; by apply Hf).
    destruct o as [data|]; simpl; [|done]. by repeat case_match.
  - destruct (Pull.timers s !! t0) as [[sid0 d0]|]; [|done]. by apply Hpoll.
Qed.

Lemma pull_run_fresh (evs : list Pull.event) (s : Pull.state) :
  Pull.fresh s → Pull.fresh (Pull.run s evs).
Proof.
  revert s. induction evs as [|ev evs IH]; intros s Hs; [done|].
  by apply IH, pull_step_fresh.
Qed.

Lemma pull_init_fresh : Pull.fresh Pull.init.
Proof. intros q [x Hx]. simpl in Hx. by rewrite lookup_empty in Hx. Qed.

(** C6 fails when [start] is called while a query is in flight: [stop()]
    finds no timer to clear, the earlier query keeps running, and two queries
    are in flight together. *)
Lemma restart_runs_two_queries :
  ¬ Pull.sequential (Pull.run Pull.init [Pull.Start "a"; Pull.Start "b"]).
Proof.
  unfold Pull.sequential. intros H.
  assert (size (Pull.inflight (Pull.run Pull.init [Pull.Start "a"; Pull.Start "b"]))
          = 2) as Hsz by reflexivity.
  lia.
Qed.

(** C6, amended: [start] issues one query at once, in every state.  In a
    session started when no query is in flight and no timer is pending but
    the one [timerRef] holds, and until [start] is called again, at most one
    thing is pending at any time, a query or a timer, so no two queries run
    together; but [start] does not cancel a query in flight, so called while
    one is pending it leaves two queries running.  A resolved query that is
    not terminal arms the next one 800 ms later; a failed query makes no
    callback and arms the next one 2000 ms later, and when that timer fires a
    query for the same session is in flight again, so that after any number
    of failures in a row the hook is still polling. *)
Theorem polling_is_sequential (sid : string) :
  (∀ s, Pull.inflight (Pull.start sid s)
        = <[Pull.next_query s := sid]> (Pull.inflight s)
      ∧ Pull.log (Pull.start sid s) = Pull.log s)
  ∧ (∀ s0 evs, Pull.inflight s0 = ∅ → Pull.tracked s0 → Pull.no_start evs = true →
     Pull.sequential (Pull.run (Pull.start sid s0) evs))
  ∧ (∀ evs q sid0, Pull.inflight (Pull.run Pull.init evs) !! q = Some sid0 →
     2 ≤ size (Pull.inflight (Pull.start sid (Pull.run Pull.init evs)))
     ∧ ¬ Pull.sequential (Pull.start sid (Pull.run Pull.init evs)))
  ∧ (∀ s q data, Pull.inflight s !! q = Some sid → Pull.is_terminal data = false →
     Pull.timers (Pull.step s (Pull.Settle q (Pull.Resolved data)))
       !! Pull.next_timer s = Some (sid, 800%Z)
     ∧ Pull.inflight (Pull.step s (Pull.Settle q (Pull.Resolved data)))
       = delete q (Pull.inflight s)
     ∧ Pull.log (Pull.step s (Pull.Settle q (Pull.Resolved data)))
       = Pull.log s ++ [onTick data])
  ∧ (∀ s q, Pull.inflight s !! q = Some sid →
     Pull.timers (Pull.step s (Pull.Settle q Pull.Rejected))
       !! Pull.next_timer s = Some (sid, 2000%Z)
     ∧ Pull.inflight (Pull.step s (Pull.Settle q Pull.Rejected))
       = delete q (Pull.inflight s)
     ∧ Pull.log (Pull.step s (Pull.Settle q Pull.Rejected)) = Pull.log s)
  ∧ (∀ s q, Pull.inflight s !! q = Some sid →
     Pull.inflight (Pull.run s [Pull.Settle q Pull.Rejected;
                                Pull.Fire (Pull.next_timer s)])
       !! Pull.next_query s = Some sid
     ∧ Pull.log (Pull.run s [Pull.Settle q Pull.Rejected;
                             Pull.Fire (Pull.next_timer s)]) = Pull.log s)
  ∧ (∀ s0 n, Pull.idle s0 →
     Pull.inflight (Pull.session s0 sid (replicate n Pull.Rejected))
     = {[Pull.next_query s0 + n := sid]}
     ∧ Pull.log (Pull.session s0 sid (replicate n Pull.Rejected)) = Pull.log s0).
Proof.
  assert (∀ s, Pull.inflight (Pull.start sid s)
               = <[Pull.next_query s := sid]> (Pull.inflight s)
             ∧ Pull.log (Pull.start sid s) = Pull.log s) as Hstart.
  { intros s. unfold Pull.start. simpl.
    by rewrite pull_stop_inflight, pull_stop_next_query, pull_stop_log. }
  split; [done|]. split; [|split; [|split; [|split; [|split]]]].
  - intros s0 evs Hi Htr Hevs. apply pull_run_sequential; [done|].
    replace (Pull.start sid s0) with (Pull.start sid (Pull.stop s0))
      by (unfold Pull.start; by rewrite pull_stop_stop).
    by apply pull_start_sequential, pull_stop_idle.
  - intros evs q sid0 Hq. set (s := Pull.run Pull.init evs) in *.
    pose proof (pull_run_fresh evs Pull.init pull_init_fresh) as Hf. fold s in Hf.
    assert (Pull.inflight s !! Pull.next_query s = None) as Hnone.
    { apply eq_None_not_Some. intros H. specialize (Hf _ H). lia. }
    assert (size (Pull.inflight s) ≠ 0) as Hne
      by (apply map_size_non_empty_iff; intros E; by rewrite E in Hq).
    assert (2 ≤ size (Pull.inflight (Pull.start sid s))) as Hsz.
    { rewrite (proj1 (Hstart s)), map_size_insert_None by done. lia. }
    split; [done|]. unfold Pull.sequential. lia.
  - intros s q data Hq Ht. rewrite (pull_settle_goes_on s sid q data Hq Ht). simpl.
    by rewrite lookup_insert_eq.
  - intros s q Hq. rewrite (pull_settle_rejected s sid q Hq). simpl.
    by rewrite lookup_insert_eq.
  - intros s q Hq.
    change (Pull.run s [?e1; ?e2]) with (Pull.step (Pull.step s e1) e2).
    rewrite (pull_settle_rejected s sid q Hq). simpl.
    rewrite lookup_insert_eq. simpl. by rewrite lookup_insert_eq.
  - intros s0 n Hs0. destruct (pull_failures n) as [Hgo Hticks].
    destruct (pull_session s0 sid _ Hs0 Hgo) as [[t [Hi _]] Hl].
    rewrite length_replicate in Hi. by rewrite Hi, Hl, Hticks, app_nil_r.
Qed.

Lemma polling_is_sequential_witness :
  (Pull.inflight Pull.init = ∅
   ∧ Pull.tracked Pull.init
   ∧ Pull.no_start [Pull.Settle 0 Pull.Rejected; Pull.Stop; Pull.Fire 1] = true
   ∧ Pull.sequential
       (Pull.run (Pull.start "abc" Pull.init)
          [Pull.Settle 0 Pull.Rejected; Pull.Stop; Pull.Fire 1]))
  ∧ (Pull.inflight (Pull.run Pull.init [Pull.Start "a"]) !! 0 = Some "a"
     ∧ 2 ≤ size (Pull.inflight
                   (Pull.start "abc" (Pull.run Pull.init [Pull.Start "a"]))))
  ∧ (Pull.inflight (Pull.start "abc" Pull.init) !! 0 = Some "abc"
     ∧ Pull.is_terminal (Sample.tick 1) = false
     ∧ Pull.timers (Pull.step (Pull.start "abc" Pull.init)
                      (Pull.Settle 0 (Pull.Resolved (Sample.tick 1))))
         !! 1%positive = Some ("abc", 800%Z))
  ∧ (Pull.timers (Pull.step (Pull.start "abc" Pull.init)
                    (Pull.Settle 0 Pull.Rejected))
       !! 1%positive = Some ("abc", 2000%Z))
  ∧ (Pull.inflight (Pull.run (Pull.start "abc" Pull.init)
                      [Pull.Settle 0 Pull.Rejected; Pull.Fire 1]) !! 1 = Some "abc")
  ∧ (Pull.inflight (Pull.session Pull.init "abc" (replicate 5 Pull.Rejected))
     = {[5 := "abc"]}).
Proof.
  destruct (polling_is_sequential "abc")
    as (_ & Hseq & Htwo & Hok & Hfail & Hagain & Hretry).
  assert (Pull.tracked Pull.init) as Htr
    by (intros t [x Hx]; vm_compute in Hx; discriminate Hx).
  split; [|split; [|split; [|split; [|split]]]].
  - split; [reflexivity|]. split; [exact Htr|]. split; [reflexivity|].
    apply Hseq; [reflexivity|exact Htr|reflexivity].
  - split; [reflexivity|].
    apply (Htwo [Pull.Start "a"] 0 "a"). reflexivity.
  - split; [reflexivity|]. split; [reflexivity|].
    apply (Hok (Pull.start "abc" Pull.init) 0 (Sample.tick 1)); reflexivity.
  - apply (Hfail (Pull.start "abc" Pull.init) 0). reflexivity.
  - apply (Hagain (Pull.start "abc" Pull.init) 0). reflexivity.
  - apply (Hretry Pull.init 5). split; reflexivity.
Defined.

(** ** App: the choice of the transport *)

Lemma app_handle_all_hooks (cs : list call) (s : App.state) :
  App.ws (App.handle_all cs s) = App.ws s
  ∧ App.polling (App.handle_all cs s) = App.polling s
  ∧ (cs = [] → App.handle_all cs s = s).
Proof.
  revert s. induction cs as [|c cs IH]; intros s; [done|].
  destruct (IH (App.handle c s)) as (Hw & Hp & _).
  unfold App.handle_all in *. simpl. rewrite Hw, Hp. by destruct c.
Qed.

(** When [new WebSocket] throws, [startSolving] starts the polling hook for
    the same session, and the socket hook stays as it was. *)
Lemma app_sync_fallback (sid : string) :
  App.polling (App.startSolving sid false App.init) = Pull.start sid Pull.init
  ∧ App.ws (App.startSolving sid false App.init) = Push.init.
Proof. done. Qed.

(** When [new WebSocket] returns, nothing the browser does afterwards
    starts the polling hook. *)
Lemma app_no_async_fallback (sid : string) (evs : list App.event) :
  forallb (λ ev, negb (App.is_startSolving ev)) evs = true →
  App.polling (App.run (App.startSolving sid true App.init) evs) = Pull.init.
Proof.
  assert (∀ evs s, forallb (λ ev, negb (App.is_startSolving ev)) evs = true →
            App.polling s = Pull.init → App.polling (App.run s evs) = Pull.init) as H.
  { clear evs. intros evs. induction evs as [|ev evs IH]; intros s Hevs Hs; [done|].
    simpl in Hevs. apply andb_prop in Hevs as [Hev Hevs].
    apply (IH _ Hevs). destruct ev as [sid' c|ev|ev]; simpl; [done| |].
    - destruct (App.from_browser_push ev); [|done].
      by rewrite (proj1 (proj2 (app_handle_all_hooks _ _))).
    - destruct (App.from_browser_pull ev) eqn:Hb; [|done].
      rewrite (proj1 (proj2 (app_handle_all_hooks _ _))). simpl.
      rewrite Hs. by destruct ev. }
  intros Hevs. by apply H.
Qed.

(** C4: the socket of session ["abc"] is constructed, then fails to
    connect: the browser dispatches [error] and [close].  The polling hook is
    not started, no callback is made, and [App] still shows the session as
    being processed with the empty progress it began with. *)
Theorem no_fallback_after_socket_error :
  App.polling (App.run App.init
    [App.StartSolving "abc" true; App.Socket (Push.Error 0); App.Socket (Push.Close 0)])
  = Pull.init
  ∧ Push.log (App.ws (App.run App.init
      [App.StartSolving "abc" true; App.Socket (Push.Error 0); App.Socket (Push.Close 0)]))
    = []
  ∧ Push.ready (App.ws (App.run App.init
      [App.StartSolving "abc" true; App.Socket (Push.Error 0); App.Socket (Push.Close 0)])) 0
    = Some Push.CLOSED
  ∧ App.processing (App.run App.init
      [App.StartSolving "abc" true; App.Socket (Push.Error 0); App.Socket (Push.Close 0)])
    = true
  ∧ Pull.log (Pull.answers Pull.init "abc" [Sample.tick 1] Sample.done_all)
    = [onTick (Sample.tick 1); onTick Sample.done_all; onComplete Sample.done_all].
Proof. repeat split. Qed.

(** * Further properties *)

(** ** The socket hook: sockets *)

Lemma push_stop_sockets (s : Push.state) (j : nat) (w : Push.websocket) :
  Push.sockets s !! j = Some w →
  ∃ w', Push.sockets (Push.stop s) !! j = Some w'
        ∧ Push.rank (Push.readyState w) ≤ Push.rank (Push.readyState w')
        ∧ Push.of_session w' = Push.of_session w.
Proof.
  intros Hj. unfold Push.stop, Push.close_ws, Push.clear_ping.
  destruct (Push.pingRef s), (Push.wsRef s) as [i|]; simpl; eauto;
    rewrite list_lookup_alter; (case_decide as Hij; [subst i|by eauto]);
    rewrite Hj; simpl; (eexists; split; [done|]);
    destruct w as [sid []]; simpl; auto.
Qed.

Lemma push_set_socket_sockets (s : Push.state) (i j : nat) (r : Push.ready_state)
    (w : Push.websocket) :
  Push.sockets s !! j = Some w →
  (Push.sockets s !! i = Some w → Push.rank (Push.readyState w) ≤ Push.rank r) →
  ∃ w', Push.sockets (Push.set_socket i r s) !! j = Some w'
        ∧ Push.rank (Push.readyState w) ≤ Push.rank (Push.readyState w')
        ∧ Push.of_session w' = Push.of_session w.
Proof.
  intros Hj Hr. simpl. rewrite list_lookup_alter. case_decide as Hij; [subst i|by eauto].
  rewrite Hj. simpl. eexists. split; [done|]. simpl. auto.
Qed.

Lemma push_step_sockets (s : Push.state) (ev : Push.event) (j : nat)
    (w : Push.websocket) :
  Push.sockets s !! j = Some w →
  ∃ w', Push.sockets (Push.step s ev) !! j = Some w'
        ∧ Push.rank (Push.readyState w) ≤ Push.rank (Push.readyState w')
        ∧ Push.of_session w' = Push.of_session w.
Proof.
  intros Hj. destruct ev as [sid|sid| |i|i f|i|i|t]; simpl.
  - destruct (push_stop_sockets s j w Hj) as (w' & Hj' & ?).
    exists w'. split; [|done]. by apply lookup_app_l_Some.
  - by apply push_stop_sockets.
  - by apply push_stop_sockets.
  - unfold Push.ready. destruct (Push.sockets s !! i) as [wi|] eqn:Hi; simpl; [|by eauto].
    destruct (Push.readyState wi) eqn:Hr; try by eauto.
    apply (push_set_socket_sockets s i j Push.OPEN w Hj).
    intros Hi'. assert (wi = w) as -> by congruence. rewrite Hr. simpl. lia.
  - destruct (Push.ready s i) as [[]|]; try by eauto.
    destruct f as [|data]; simpl; [by eauto|].
    repeat case_match; try by eauto.
    + apply (push_stop_sockets (Push.emit _ (Push.emit _ s)) j w Hj).
    + apply (push_stop_sockets (Push.emit _ s) j w Hj).
  - by eauto.
  - assert (∃ w', Push.sockets (Push.onclose (Push.set_socket i Push.CLOSED s)) !! j
                  = Some w'
                  ∧ Push.rank (Push.readyState w) ≤ Push.rank (Push.readyState w')
                  ∧ Push.of_session w' = Push.of_session w) as Hclose.
    { destruct (push_set_socket_sockets s i j Push.CLOSED w Hj) as (w' & Hj' & ?).
      { intros _. destruct (Push.readyState w); simpl; lia. }
      exists w'. split; [|done]. unfold Push.onclose, Push.clear_ping.
      by destruct (Push.pingRef _). }
    destruct (Push.ready s i) as [[]|]; by eauto.
  - destruct (Push.intervals s !! t) as [i|]; [|by eauto].
    unfold Push.ping. repeat case_match; by eauto.
Qed.

Lemma push_run_sockets (evs : list Push.event) (s : Push.state) (j : nat)
    (w : Push.websocket) :
  Push.sockets s !! j = Some w →
  ∃ w', Push.sockets (Push.run s evs) !! j = Some w'
        ∧ Push.rank (Push.readyState w) ≤ Push.rank (Push.readyState w')
        ∧ Push.of_session w' = Push.of_session w.
Proof.
  revert s w. induction evs as [|ev evs IH]; intros s w Hj; [by eauto|].
  destruct (push_step_sockets s ev j w Hj) as (w1 & Hj1 & Hr1 & Hs1).
  destruct (IH _ _ Hj1) as (w2 & Hj2 & Hr2 & Hs2).
  exists w2. split; [done|]. split; [lia|congruence].
Qed.

(** X2: in every state the hook can reach at most one socket is live
    (connecting or open), and it is the one [wsRef] holds. *)
Theorem one_live_socket (evs : list Push.event) (j k : nat)
    (wj wk : Push.websocket) :
  Push.sockets (Push.run Push.init evs) !! j = Some wj → Push.live wj = true →
  Push.sockets (Push.run Push.init evs) !! k = Some wk → Push.live wk = true →
  j = k ∧ Push.wsRef (Push.run Push.init evs) = Some j.
Proof.
  intros Hj Hlj Hk Hlk.
  pose proof (push_run_owned evs Push.init push_init_owned) as Ho.
  pose proof (Ho j wj Hj Hlj). pose proof (Ho k wk Hk Hlk).
  split; [congruence|done].
Qed.

Lemma one_live_socket_witness :
  Push.sockets (Push.run Push.init [Push.Start "a"; Push.Open 0; Push.Start "b"]) !! 1
  = Some {| Push.of_session := "b"; Push.readyState := Push.CONNECTING |}
  ∧ Push.wsRef (Push.run Push.init [Push.Start "a"; Push.Open 0; Push.Start "b"])
    = Some 1.
Proof.
  split; [reflexivity|].
  apply (one_live_socket [Push.Start "a"; Push.Open 0; Push.Start "b"] 1 1
           {| Push.of_session := "b"; Push.readyState := Push.CONNECTING |}
           {| Push.of_session := "b"; Push.readyState := Push.CONNECTING |});
    reflexivity.
Defined.

Lemma push_dead_stays_dead (evs : list Push.event) (s : Push.state) (j : nat)
    (w : Push.websocket) :
  Push.sockets s !! j = Some w → Push.live w = false →
  Push.ready (Push.run s evs) j = Some Push.CLOSING
  ∨ Push.ready (Push.run s evs) j = Some Push.CLOSED.
Proof.
  intros Hj Hl. destruct (push_run_sockets evs s j w Hj) as (w' & Hj' & Hr & _).
  unfold Push.ready. rewrite Hj'. simpl. unfold Push.live in Hl.
  destruct (Push.readyState w), (Push.readyState w'); simpl in *; auto; (done || lia).
Qed.

(** X3: a second [start] supersedes the first session for good: whatever
    happens afterwards, a frame on a socket constructed before that [start]
    is not handled, so no callback of the earlier session is made. *)
Theorem restart_supersedes (evs0 evs : list Push.event) (sid : string) (j : nat)
    (f : Push.frame) :
  j < length (Push.sockets (Push.run Push.init evs0)) →
  Push.step (Push.run (Push.start sid (Push.run Push.init evs0)) evs) (Push.Message j f)
  = Push.run (Push.start sid (Push.run Push.init evs0)) evs.
Proof.
  intros Hj. set (s0 := Push.run Push.init evs0) in *.
  pose proof (push_stop_quiet s0 (push_run_owned evs0 Push.init push_init_owned)) as Hq.
  rewrite <-(push_stop_length s0) in Hj.
  destruct (lookup_lt_is_Some_2 _ _ Hj) as [w Hw].
  unfold Push.quiet in Hq. rewrite Forall_lookup in Hq. specialize (Hq j w Hw).
  assert (Push.sockets (Push.start sid s0) !! j = Some w) as Hw'
    by (by apply lookup_app_l_Some).
  simpl. by destruct (push_dead_stays_dead evs _ j w Hw' Hq) as [-> | ->].
Qed.

Lemma restart_supersedes_witness :
  0 < length (Push.sockets (Push.run Push.init [Push.Start "a"; Push.Open 0]))
  ∧ Push.log (Push.step
      (Push.run (Push.start "b" (Push.run Push.init [Push.Start "a"; Push.Open 0]))
         [Push.Open 1])
      (Push.Message 0 (Push.Json Sample.done_all))) = [].
Proof.
  split; [vm_compute; lia|].
  rewrite (restart_supersedes [Push.Start "a"; Push.Open 0] [Push.Open 1] "b" 0
             (Push.Json Sample.done_all)); [reflexivity|vm_compute; lia].
Defined.

(** ** The socket hook: the keepalive timer *)

Lemma push_clear_ping_intervals (s : Push.state) :
  Push.ping_tracked s → Push.intervals (Push.clear_ping s) = ∅.
Proof.
  intros Hk. apply map_empty. intros t. apply eq_None_not_Some. intros [i Hi].
  unfold Push.clear_ping in Hi. destruct (Push.pingRef s) as [t'|] eqn:Hp.
  - simpl in Hi. apply lookup_delete_Some in Hi as [Hne Hi].
    destruct (Hk t i Hi) as (Hp' & _). congruence.
  - destruct (Hk t i Hi) as (Hp' & _). congruence.
Qed.

Lemma push_stop_intervals (s : Push.state) :
  Push.ping_tracked s → Push.intervals (Push.stop s) = ∅.
Proof.
  intros Hk. rewrite <-(push_clear_ping_intervals s Hk).
  unfold Push.stop, Push.close_ws. by destruct (Push.wsRef _).
Qed.

Lemma push_no_intervals_tracked (s : Push.state) :
  Push.intervals s = ∅ → Push.ping_tracked s.
Proof. intros H t i. by rewrite H, lookup_empty. Qed.

Lemma push_step_ping_tracked (s : Push.state) (ev : Push.event) :
  Push.owned s → Push.ping_tracked s → Push.ping_tracked (Push.step s ev).
Proof.
  intros Ho Hk.
  destruct ev as [sid|sid| |i|i f|i|i|t]; simpl;
    try (by apply push_no_intervals_tracked, push_stop_intervals); try done.
  - unfold Push.ready. destruct (Push.sockets s !! i) as [w|] eqn:Hi; [|done].
    simpl. destruct (Push.readyState w) eqn:Hr; try done.
    assert (Push.wsRef s = Some i) as Hw
      by (apply (Ho i w Hi); unfold Push.live; by rewrite Hr).
    assert (Push.intervals s = ∅) as He.
    { apply map_empty. intros t. apply eq_None_not_Some. intros [k Hk'].
      destruct (Hk t k Hk') as (_ & Hw' & Hc). assert (k = i) as -> by congruence.
      apply Hc. unfold Push.ready. rewrite Hi. simpl. by rewrite Hr. }
    intros t k. simpl. rewrite He, insert_empty.
    intros [<- <-]%lookup_singleton_Some. split; [done|]. split; [done|].
    unfold Push.ready. simpl. rewrite list_lookup_alter_eq, Hi. done.
  - destruct (Push.ready s i) as [[]|]; try done.
    destruct f as [|data]; simpl; [done|].
    repeat case_match; try done;
      by apply push_no_intervals_tracked, push_stop_intervals.
  - assert (Push.ping_tracked (Push.onclose (Push.set_socket i Push.CLOSED s))).
    { apply push_no_intervals_tracked.
      assert (Push.intervals (Push.clear_ping s) = ∅) as He
        by (by apply push_clear_ping_intervals).
      unfold Push.onclose, Push.clear_ping in *. simpl.
      by destruct (Push.pingRef s). }
    by destruct (Push.ready s i) as [[]|].
  - destruct (Push.intervals s !! t) as [i|]; [|done].
    unfold Push.ping. by repeat case_match.
Qed.

Lemma push_run_ping_tracked (evs : list Push.event) (s : Push.state) :
  Push.owned s → Push.ping_tracked s →
  Push.owned (Push.run s evs) ∧ Push.ping_tracked (Push.run s evs).
Proof.
  revert s. induction evs as [|ev evs IH]; intros s Ho Hk; [done|].
  apply IH; [by apply push_step_owned|by apply push_step_ping_tracked].
Qed.

Lemma push_reachable_ping_tracked (evs : list Push.event) :
  Push.owned (Push.run Push.init evs) ∧ Push.ping_tracked (Push.run Push.init evs).
Proof.
  apply push_run_ping_tracked; [apply push_init_owned|].
  by apply push_no_intervals_tracked.
Qed.

(** X4: the hook never leaks a keepalive timer.  In every state it can
    reach at most one interval is active, that interval is the one [pingRef]
    holds and it serves the socket [wsRef] holds; and [stop] leaves no
    interval active at all. *)
Theorem keepalive_never_leaks (evs : list Push.event) :
  size (Push.intervals (Push.run Push.init evs)) ≤ 1
  ∧ (∀ t i, Push.intervals (Push.run Push.init evs) !! t = Some i →
       Push.pingRef (Push.run Push.init evs) = Some t
       ∧ Push.wsRef (Push.run Push.init evs) = Some i)
  ∧ Push.intervals (Push.stop (Push.run Push.init evs)) = ∅.
Proof.
  destruct (push_reachable_ping_tracked evs) as [Ho Hk].
  set (s := Push.run Push.init evs) in *. split; [|split].
  - destruct (Push.pingRef s) as [t|] eqn:Hp.
    + assert (Push.intervals s = ∅ ∨ ∃ i, Push.intervals s = {[t := i]}) as [->| [i ->]].
      { destruct (Push.intervals s !! t) as [i|] eqn:Ht.
        - right. exists i. apply map_eq. intros t'.
          destruct (decide (t' = t)) as [->|Hne];
            [by rewrite lookup_singleton_eq|rewrite lookup_singleton_ne by done].
          apply eq_None_not_Some. intros [k Hk'].
          destruct (Hk t' k Hk') as (? & _). congruence.
        - left. apply map_empty. intros t'. apply eq_None_not_Some. intros [k Hk'].
          destruct (Hk t' k Hk') as (? & _). congruence. }
      * rewrite map_size_empty. lia.
      * by rewrite map_size_singleton.
    + assert (Push.intervals s = ∅) as ->.
      { apply map_empty. intros t'. apply eq_None_not_Some. intros [k Hk'].
        destruct (Hk t' k Hk') as (? & _). congruence. }
      rewrite map_size_empty. lia.
  - intros t i Hi. by destruct (Hk t i Hi) as (? & ? & _).
  - by apply push_stop_intervals.
Qed.

Lemma keepalive_never_leaks_witness :
  Push.intervals (Push.run Push.init [Push.Start "a"; Push.Open 0]) !! 1%positive
  = Some 0
  ∧ Push.pingRef (Push.run Push.init [Push.Start "a"; Push.Open 0]) = Some 1%positive
  ∧ Push.wsRef (Push.run Push.init [Push.Start "a"; Push.Open 0]) = Some 0.
Proof.
  split; [reflexivity|].
  apply (proj1 (proj2 (keepalive_never_leaks [Push.Start "a"; Push.Open 0]))
           1%positive 0).
  reflexivity.
Defined.

Lemma push_quiet_no_ping_step (s : Push.state) (ev : Push.event) :
  Push.is_start ev = false →
  Push.quiet s → Push.intervals s = ∅ →
  Push.quiet (Push.step s ev) ∧ Push.intervals (Push.step s ev) = ∅
  ∧ Push.sent (Push.step s ev) = Push.sent s.
Proof.
  intros Hev Hq He. destruct (push_quiet_step s ev Hev Hq) as [Hq' _].
  split; [done|].
  assert (∀ s', Push.intervals s' = ∅ →
            Push.intervals (Push.stop s') = ∅ ∧ Push.sent (Push.stop s') = Push.sent s')
    as Hstop.
  { intros s' He'. split; [by apply push_stop_intervals, push_no_intervals_tracked|].
    unfold Push.stop, Push.close_ws, Push.clear_ping.
    by destruct (Push.pingRef s'), (Push.wsRef s'). }
  destruct ev as [sid|sid| |i|i f|i|i|t]; simpl; try done; try (by apply Hstop).
  - destruct (Push.ready s i) as [r|] eqn:Hr; [|done].
    by destruct (push_quiet_ready s i r Hq Hr) as [-> | ->].
  - destruct (Push.ready s i) as [r|] eqn:Hr; [|done].
    by destruct (push_quiet_ready s i r Hq Hr) as [-> | ->].
  - assert (Push.intervals (Push.onclose (Push.set_socket i Push.CLOSED s)) = ∅
            ∧ Push.sent (Push.onclose (Push.set_socket i Push.CLOSED s)) = Push.sent s)
      as Hclose.
    { unfold Push.onclose, Push.clear_ping.
      destruct (Push.pingRef _); simpl; [|done]. by rewrite He, delete_empty. }
    by destruct (Push.ready s i) as [[]|].
  - by rewrite He, lookup_empty.
Qed.

(** X5: a keepalive [ping] is only ever sent on the socket [wsRef] holds,
    and only while that socket is open; and once [stop] has run, nothing is
    sent any more until the next [start]. *)
Theorem pings_only_while_open (evs : list Push.event) :
  (∀ ev, Push.sent (Push.step (Push.run Push.init evs) ev)
         = Push.sent (Push.run Push.init evs)
       ∨ ∃ i, Push.sent (Push.step (Push.run Push.init evs) ev)
              = Push.sent (Push.run Push.init evs) ++ [(i, "ping")]
            ∧ Push.wsRef (Push.run Push.init evs) = Some i
            ∧ Push.ready (Push.run Push.init evs) i = Some Push.OPEN)
  ∧ (∀ evs', Push.no_start evs' = true →
       Push.sent (Push.run (Push.stop (Push.run Push.init evs)) evs')
       = Push.sent (Push.run Push.init evs)).
Proof.
  destruct (push_reachable_ping_tracked evs) as [Ho Hk].
  set (s := Push.run Push.init evs) in *. split.
  - assert (∀ s', Push.sent (Push.stop s') = Push.sent s') as Hstop.
    { intros s'. unfold Push.stop, Push.close_ws, Push.clear_ping.
      by destruct (Push.pingRef s'), (Push.wsRef s'). }
    intros ev. destruct ev as [sid|sid| |i|i f|i|i|t]; simpl; auto.
    + left. by destruct (Push.ready s i) as [[]|].
    + left. destruct (Push.ready s i) as [[]|]; try done.
      destruct f as [|data]; simpl; [done|].
      repeat case_match; try done; by rewrite Hstop.
    + left. assert (Push.sent (Push.onclose (Push.set_socket i Push.CLOSED s))
                    = Push.sent s) as Hclose
        by (unfold Push.onclose, Push.clear_ping; by destruct (Push.pingRef _)).
      by destruct (Push.ready s i) as [[]|].
    + destruct (Push.intervals s !! t) as [i|] eqn:Ht; [|by left].
      destruct (Hk t i Ht) as (_ & Hw & _). unfold Push.ping, Push.ready.
      destruct (Push.sockets s !! i) as [[sid r]|] eqn:Hs; [|by left].
      destruct r; simpl; auto. right. exists i. by rewrite Hs.
  - assert (∀ evs' s', Push.no_start evs' = true → Push.quiet s' →
              Push.intervals s' = ∅ → Push.sent (Push.run s' evs') = Push.sent s') as Hrun.
    { intros evs'. induction evs' as [|ev evs' IH]; intros s' Hevs' Hq He; [done|].
      simpl in Hevs'. apply andb_prop in Hevs' as [Hev Hevs'].
      apply negb_true_iff in Hev.
      destruct (push_quiet_no_ping_step s' ev Hev Hq He) as (Hq' & He' & Hs').
      change (Push.run s' (ev :: evs')) with (Push.run (Push.step s' ev) evs').
      by rewrite (IH _ Hevs' Hq' He'). }
    intros evs' Hevs'. rewrite Hrun; [|done|by apply push_stop_quiet|
                                       by apply push_stop_intervals].
    unfold Push.stop, Push.close_ws, Push.clear_ping.
    by destruct (Push.pingRef s), (Push.wsRef s).
Qed.

Lemma pings_only_while_open_witness :
  Push.sent (Push.step (Push.session Push.init "abc" []) (Push.Interval 1))
  = [(0, "ping")]
  ∧ Push.no_start [Push.Interval 1; Push.Open 0; Push.Interval 1] = true
  ∧ Push.sent (Push.run (Push.stop (Push.session Push.init "abc" []))
                 [Push.Interval 1; Push.Open 0; Push.Interval 1]) = [].
Proof.
  split; [reflexivity|]. split; [reflexivity|].
  apply (proj2 (pings_only_while_open [Push.Start "abc"; Push.Open 0])
           [Push.Interval 1; Push.Open 0; Push.Interval 1]).
  reflexivity.
Defined.

(** X6: [ws.onclose] clears the timer in [pingRef] whichever socket
    closed.  So when the socket of an earlier session closes after the next
    session's socket has opened, the open socket [wsRef] holds is left
    without any keepalive timer. *)
Theorem late_close_cancels_keepalive (evs : list Push.event) (i j : nat) :
  Push.wsRef (Push.run Push.init evs) = Some j →
  Push.ready (Push.run Push.init evs) j = Some Push.OPEN →
  i ≠ j → Push.ready (Push.run Push.init evs) i = Some Push.CLOSING →
  Push.wsRef (Push.step (Push.run Push.init evs) (Push.Close i)) = Some j
  ∧ Push.ready (Push.step (Push.run Push.init evs) (Push.Close i)) j = Some Push.OPEN
  ∧ Push.pingRef (Push.step (Push.run Push.init evs) (Push.Close i)) = None
  ∧ Push.intervals (Push.step (Push.run Push.init evs) (Push.Close i)) = ∅.
Proof.
  destruct (push_reachable_ping_tracked evs) as [Ho Hk].
  set (s := Push.run Push.init evs) in *. intros Hw Hj Hij Hi.
  simpl. rewrite Hi.
  assert (Push.intervals (Push.clear_ping s) = ∅) as He
    by (by apply push_clear_ping_intervals).
  unfold Push.onclose, Push.clear_ping, Push.ready in *. simpl.
  by destruct (Push.pingRef s) eqn:Hp; simpl in *;
    rewrite list_lookup_alter_ne by done.
Qed.

Lemma late_close_cancels_keepalive_witness :
  Push.wsRef (Push.run Push.init
                [Push.Start "a"; Push.Open 0; Push.Start "b"; Push.Open 1]) = Some 1
  ∧ Push.ready (Push.run Push.init
                  [Push.Start "a"; Push.Open 0; Push.Start "b"; Push.Open 1]) 1
    = Some Push.OPEN
  ∧ 0 ≠ 1
  ∧ Push.ready (Push.run Push.init
                  [Push.Start "a"; Push.Open 0; Push.Start "b"; Push.Open 1]) 0
    = Some Push.CLOSING
  ∧ Push.intervals (Push.run Push.init
                      [Push.Start "a"; Push.Open 0; Push.Start "b"; Push.Open 1])
    = {[2%positive := 1]}
  ∧ Push.intervals (Push.step
      (Push.run Push.init [Push.Start "a"; Push.Open 0; Push.Start "b"; Push.Open 1])
      (Push.Close 0)) = ∅.
Proof.
  split; [reflexivity|]. split; [reflexivity|]. split; [lia|].
  split; [reflexivity|]. split; [reflexivity|].
  apply (late_close_cancels_keepalive
           [Push.Start "a"; Push.Open 0; Push.Start "b"; Push.Open 1] 0 1);
    [reflexivity|reflexivity|lia|reflexivity].
Defined.

(** X7: the address of the socket is a function of the session id alone
    that tells sessions apart: on one page two session ids give the same
    address only if they are equal; and the scheme is [wss:] on an [https:]
    page and [ws:] on any other. *)
Theorem wsUrl_by_session (protocol host a b : string) :
  (Push.wsUrl protocol host a = Push.wsUrl protocol host b → a = b)
  ∧ Push.wsUrl "https:" host a = "wss://" +:+ host +:+ "/ws/progress/" +:+ a
  ∧ (protocol ≠ "https:" →
     Push.wsUrl protocol host a = "ws://" +:+ host +:+ "/ws/progress/" +:+ a).
Proof.
  split; [|split].
  - unfold Push.wsUrl. intros H.
    by repeat (apply String.app_inj in H).
  - done.
  - intros Hp. unfold Push.wsUrl.
    destruct (String.eqb_spec protocol "https:") as [->|_]; done.
Qed.

Lemma wsUrl_by_session_witness :
  "http:" ≠ "https:"
  ∧ Push.wsUrl "http:" "localhost:8000" "abc" = "ws://localhost:8000/ws/progress/abc".
Proof.
  split; [discriminate|].
  apply (proj2 (proj2 (wsUrl_by_session "http:" "localhost:8000" "abc" "abc"))).
  discriminate.
Defined.

(** ** The polling hook: what it polls for *)

Lemma pull_step_started (s : Pull.state) (ev : Pull.event) (S : list string) :
  (∀ q sid, Pull.inflight s !! q = Some sid → sid ∈ S) →
  (∀ t sid d, Pull.timers s !! t = Some (sid, d) →
     sid ∈ S ∧ Pull.is_poll_delay d = true) →
  (∀ q sid, Pull.inflight (Pull.step s ev) !! q = Some sid →
     sid ∈ S ++ Pull.started [ev])
  ∧ (∀ t sid d, Pull.timers (Pull.step s ev) !! t = Some (sid, d) →
       sid ∈ S ++ Pull.started [ev] ∧ Pull.is_poll_delay d = true).
Proof.
  intros Hi Ht.
  assert (∀ t sid d, Pull.timers (Pull.stop s) !! t = Some (sid, d) →
            sid ∈ S ∧ Pull.is_poll_delay d = true) as Hstop.
  { intros t sid d. unfold Pull.stop. destruct (Pull.timerRef s); simpl; [|by eauto].
    intros [_ H]%lookup_delete_Some. by eauto. }
  destruct ev as [sid0| |q0 o|t0]; simpl.
  - split.
    + intros q sid. rewrite pull_stop_inflight.
      intros [[_ <-]|[_ H]]%lookup_insert_Some; apply elem_of_app;
        [right; by apply list_elem_of_singleton|left; by eauto].
    + intros t sid d H. destruct (Hstop t sid d H).
      split; [|done]. apply elem_of_app. by left.
  - rewrite app_nil_r. split; [|done]. intros q sid. rewrite pull_stop_inflight. eauto.
  - rewrite app_nil_r. destruct (Pull.inflight s !! q0) as [sid0|] eqn:Hq0; [|done].
    pose proof (Hi q0 sid0 Hq0) as Hs0.
    assert (∀ d, Pull.is_poll_delay d = true →
              (∀ q sid, Pull.inflight (Pull.setTimeout sid0 d (Pull.settle_query q0 s))
                          !! q = Some sid → sid ∈ S)
              ∧ (∀ t sid d', Pull.timers (Pull.setTimeout sid0 d (Pull.settle_query q0 s))
                              !! t = Some (sid, d') →
                   sid ∈ S ∧ Pull.is_poll_delay d' = true)) as Hset.
    { intros d Hd. simpl. split.
      - intros q sid [_ H]%lookup_delete_Some. eauto.
      - intros t sid d' [[_ [= <- <-]]|[_ H]]%lookup_insert_Some; eauto. }
    assert ((∀ q sid, Pull.inflight (Pull.settle_query q0 s) !! q = Some sid → sid ∈ S)
            ∧ (∀ t sid d', Pull.timers (Pull.settle_query q0 s) !! t = Some (sid, d') →
                 sid ∈ S ∧ Pull.is_poll_delay d' = true)) as Hsettle.
    { simpl. split; [|done]. intros q sid [_ H]%lookup_delete_Some. eauto. }
    destruct o as [data|]; simpl; [|by apply (Hset 2000%Z)].
    destruct (str_is (status data) "completed"); [done|].
    destruct (str_is (status data) "error"); [done|].
    by apply (Hset 800%Z).
  - rewrite app_nil_r. destruct (Pull.timers s !! t0) as [[sid0 d0]|] eqn:Ht0; [|done].
    destruct (Ht t0 sid0 d0 Ht0) as [Hs0 _]. simpl. split.
    + intros q sid [[_ <-]|[_ H]]%lookup_insert_Some; eauto.
    + intros t sid d [_ H]%lookup_delete_Some. eauto.
Qed.

(** X8: the hook only ever polls for a session it was started with, and
    every timer it has pending was armed with a delay of 800 or of 2000. *)
Theorem polls_started_sessions (evs : list Pull.event) :
  (∀ q sid, Pull.inflight (Pull.run Pull.init evs) !! q = Some sid →
     sid ∈ Pull.started evs)
  ∧ (∀ t sid d, Pull.timers (Pull.run Pull.init evs) !! t = Some (sid, d) →
       sid ∈ Pull.started evs ∧ Pull.is_poll_delay d = true).
Proof.
  induction evs as [|ev evs [IHi IHt]] using rev_ind; [done|].
  unfold Pull.run, Pull.started. rewrite foldl_app, omap_app. simpl.
  exact (pull_step_started _ ev _ IHi IHt).
Qed.

Lemma polls_started_sessions_witness :
  Pull.timers (Pull.run Pull.init [Pull.Start "abc"; Pull.Settle 0 Pull.Rejected])
    !! 1%positive = Some ("abc", 2000%Z)
  ∧ "abc" ∈ ["abc"].
Proof.
  split; [reflexivity|].
  apply (proj2 (polls_started_sessions [Pull.Start "abc"; Pull.Settle 0 Pull.Rejected])
           1%positive "abc" 2000%Z).
  reflexivity.
Defined.

(** X9: [start] does not supersede a query in flight.  Started again while
    the query of the previous [start] is pending, the hook has two queries in
    flight at once, and the answer to the earlier one is still forwarded to
    the consumer. *)
Theorem restart_keeps_query_in_flight (s0 : Pull.state) (sid sid' : string)
    (data : envelope) :
  Pull.idle s0 →
  size (Pull.inflight (Pull.start sid' (Pull.start sid s0))) = 2
  ∧ ¬ Pull.sequential (Pull.start sid' (Pull.start sid s0))
  ∧ Pull.log (Pull.step (Pull.start sid' (Pull.start sid s0))
                (Pull.Settle (Pull.next_query s0) (Pull.Resolved data)))
    = Pull.log s0 ++ Pull.forwarded data.
Proof.
  intros Hs0. destruct (pull_start_polling_at sid s0 Hs0) as [(Hi & Ht & Hq & _) Hl].
  assert (Pull.inflight (Pull.start sid' (Pull.start sid s0))
          = <[S (Pull.next_query s0) := sid']> {[Pull.next_query s0 := sid]}) as Hi'.
  { unfold Pull.start at 1, Pull.poll. cbn [Pull.inflight].
    rewrite pull_stop_inflight, Hi.
    replace (Pull.next_query (Pull.stop (Pull.start sid s0)))
      with (S (Pull.next_query s0)); [done|].
    rewrite <-Hq. unfold Pull.stop. by destruct (Pull.timerRef _). }
  assert (size (Pull.inflight (Pull.start sid' (Pull.start sid s0))) = 2) as Hsz.
  { rewrite Hi', map_size_insert_None, map_size_singleton; [done|].
    apply lookup_singleton_ne. lia. }
  split; [done|]. split.
  - unfold Pull.sequential. lia.
  - rewrite (pull_settle_forwarded _ sid).
    + unfold Pull.start at 1. simpl. by rewrite pull_stop_log, Hl.
    + rewrite Hi', lookup_insert_ne by lia. apply lookup_singleton_eq.
Qed.

Lemma restart_keeps_query_in_flight_witness :
  Pull.idle Pull.init
  ∧ Pull.log (Pull.step (Pull.start "b" (Pull.start "a" Pull.init))
                (Pull.Settle 0 (Pull.Resolved Sample.done_all)))
    = [onTick Sample.done_all; onComplete Sample.done_all].
Proof.
  split; [split; reflexivity|].
  apply (proj2 (proj2 (restart_keeps_query_in_flight Pull.init "a" "b" Sample.done_all
                         (conj eq_refl eq_refl)))).
Defined.

(** ** What the hooks call, and when *)

Lemma pull_step_log (s : Pull.state) (ev : Pull.event) :
  Pull.log (Pull.step s ev) = Pull.log s
  ∨ ∃ q sid data, ev = Pull.Settle q (Pull.Resolved data)
      ∧ Pull.inflight s !! q = Some sid
      ∧ Pull.log (Pull.step s ev) = Pull.log s ++ Pull.forwarded data.
Proof.
  destruct ev as [sid| |q o|t].
  - left. apply pull_stop_log.
  - left. apply pull_stop_log.
  - destruct (Pull.inflight s !! q) as [sid|] eqn:Hq; [|left; simpl; by rewrite Hq].
    destruct o as [data|].
    + right. exists q, sid, data. split; [done|]. split; [done|].
      by apply (pull_settle_forwarded s sid).
    + left. by rewrite (pull_settle_rejected s sid q Hq).
  - left. simpl. by destruct (Pull.timers s !! t) as [[sid d]|].
Qed.

Lemma push_step_log (s : Push.state) (ev : Push.event) :
  Push.log (Push.step s ev) = Push.log s
  ∨ ∃ i data, ev = Push.Message i (Push.Json data)
      ∧ Push.ready s i = Some Push.OPEN
      ∧ Push.log (Push.step s ev) = Push.log s ++ Push.forwarded data.
Proof.
  destruct ev as [sid|sid| |i|i f|i|i|t]; simpl.
  - left. apply push_stop_log.
  - left. apply push_stop_log.
  - left. apply push_stop_log.
  - left. by destruct (Push.ready s i) as [[]|].
  - destruct (Push.ready s i) as [r|] eqn:Hr; [|by left].
    destruct r; try by left.
    destruct f as [|data]; [by left|].
    right. exists i, data. split; [done|]. split; [done|].
    rewrite <-(push_message_forwarded s i data Hr). simpl. by rewrite Hr.
  - by left.
  - left. assert (Push.log (Push.onclose (Push.set_socket i Push.CLOSED s))
                  = Push.log s) as Hclose
      by (unfold Push.onclose, Push.clear_ping; by destruct (Push.pingRef _)).
    by destruct (Push.ready s i) as [[]|].
  - left. destruct (Push.intervals s !! t) as [i|]; [|done].
    unfold Push.ping. by repeat case_match.
Qed.

(** X10: a hook calls its consumer only while it handles a delivery: the
    polling hook when a query in flight resolves, the socket hook when a
    frame that parses arrives on an open socket.  [start], [stop], a failed
    query, an expiring timer, and the [open], [error] and [close] of a socket
    make no call; and calls already made are never taken back. *)
Theorem calls_only_on_delivery :
  (∀ s ev, Pull.log (Pull.step s ev) = Pull.log s
     ∨ ∃ q sid data, ev = Pull.Settle q (Pull.Resolved data)
         ∧ Pull.inflight s !! q = Some sid
         ∧ Pull.log (Pull.step s ev) = Pull.log s ++ Pull.forwarded data)
  ∧ (∀ s ev, Push.log (Push.step s ev) = Push.log s
     ∨ ∃ i data, ev = Push.Message i (Push.Json data)
         ∧ Push.ready s i = Some Push.OPEN
         ∧ Push.log (Push.step s ev) = Push.log s ++ Push.forwarded data).
Proof. split; [apply pull_step_log|apply push_step_log]. Qed.

Lemma or_else_not_empty (o : option string) :
  negb (String.eqb (JS.or_else o "Processing error") "") = true.
Proof. by destruct o as [[|c s]|]. Qed.

Lemma pull_forwarded_has_message (data : envelope) :
  forallb has_message (Pull.forwarded data) = true.
Proof.
  unfold Pull.forwarded, Pull.terminal_call. repeat case_match; simpl; try done;
    by rewrite or_else_not_empty.
Qed.

Lemma push_forwarded_has_message (data : envelope) :
  forallb has_message (Push.forwarded data) = true.
Proof.
  unfold Push.forwarded, Push.terminal_calls. repeat case_match; simpl; try done;
    by rewrite or_else_not_empty.
Qed.

(** X11: [onError] is never called with an empty message: when the
    envelope carries no [error] text, or an empty one, the hooks pass
    ['Processing error']. *)
Theorem error_message_never_empty :
  (∀ evs, forallb has_message (Pull.log (Pull.run Pull.init evs)) = true)
  ∧ (∀ evs, forallb has_message (Push.log (Push.run Push.init evs)) = true).
Proof.
  split.
  - intros evs. induction evs as [|ev evs IH] using rev_ind; [done|].
    unfold Pull.run in *. rewrite foldl_app. simpl.
    destruct (pull_step_log (foldl Pull.step Pull.init evs) ev)
      as [->|(q & sid & data & _ & _ & ->)]; [done|].
    by rewrite forallb_app, IH, pull_forwarded_has_message.
  - intros evs. induction evs as [|ev evs IH] using rev_ind; [done|].
    unfold Push.run in *. rewrite foldl_app. simpl.
    destruct (push_step_log (foldl Push.step Push.init evs) ev)
      as [->|(i & data & _ & _ & ->)]; [done|].
    by rewrite forallb_app, IH, push_forwarded_has_message.
Qed.

(** ** App: what the consumer shows *)

Lemma app_new_calls (l x : list call) : App.new_calls l (l ++ x) = x.
Proof. apply drop_app_length. Qed.

Lemma app_step_frame (s : App.state) (i : nat) (data : envelope) :
  Push.ready (App.ws s) i = Some Push.OPEN →
  App.step s (App.Socket (Push.Message i (Push.Json data)))
  = App.handle_all (Push.forwarded data)
      (App.set_ws (Push.step (App.ws s) (Push.Message i (Push.Json data))) s).
Proof.
  intros Hr. unfold App.step, App.from_browser_push.
  by rewrite (push_message_forwarded _ i data Hr), app_new_calls.
Qed.

Lemma app_step_answer (s : App.state) (q : nat) (sid : string) (data : envelope) :
  Pull.inflight (App.polling s) !! q = Some sid →
  App.step s (App.Poll (Pull.Settle q (Pull.Resolved data)))
  = App.handle_all (Pull.forwarded data)
      (App.set_polling
         (Pull.step (App.polling s) (Pull.Settle q (Pull.Resolved data))) s).
Proof.
  intros Hq. unfold App.step, App.from_browser_pull.
  by rewrite (pull_settle_forwarded _ sid q data Hq), app_new_calls.
Qed.

(** X12: what [App] shows after a frame on the open socket.  A progress
    frame becomes the progress on display and the session stays in
    processing; a completion ends processing, removes the progress and shows
    the results of the frame; an error ends processing, removes the progress
    and leaves the results as they were. *)
Theorem app_view_after_frame (s : App.state) (i : nat) (data : envelope) :
  Push.ready (App.ws s) i = Some Push.OPEN → Push.is_pong data = false →
  (Push.is_terminal data = false →
     App.processing (App.step s (App.Socket (Push.Message i (Push.Json data))))
     = App.processing s
     ∧ App.progressData (App.step s (App.Socket (Push.Message i (Push.Json data))))
       = Some data
     ∧ App.shown_results (App.step s (App.Socket (Push.Message i (Push.Json data))))
       = App.shown_results s)
  ∧ (Push.is_completed data = true →
     App.processing (App.step s (App.Socket (Push.Message i (Push.Json data))))
     = false
     ∧ App.progressData (App.step s (App.Socket (Push.Message i (Push.Json data))))
       = None
     ∧ App.shown_results (App.step s (App.Socket (Push.Message i (Push.Json data))))
       = Some (results data))
  ∧ (Push.is_completed data = false → Push.is_error data = true →
     App.processing (App.step s (App.Socket (Push.Message i (Push.Json data))))
     = false
     ∧ App.progressData (App.step s (App.Socket (Push.Message i (Push.Json data))))
       = None
     ∧ App.shown_results (App.step s (App.Socket (Push.Message i (Push.Json data))))
       = App.shown_results s).
Proof.
  intros Hr Hp. rewrite (app_step_frame s i data Hr).
  unfold Push.forwarded, Push.is_terminal, Push.terminal_calls. rewrite Hp.
  split; [|split].
  - by intros ->.
  - by intros ->.
  - by intros -> ->.
Qed.

Lemma app_view_after_frame_witness :
  Push.ready (App.ws (App.run App.init
                [App.StartSolving "abc" true; App.Socket (Push.Open 0)])) 0
  = Some Push.OPEN
  ∧ Push.is_pong Sample.done_all = false
  ∧ Push.is_completed Sample.done_all = true
  ∧ App.shown_results
      (App.step (App.run App.init
                   [App.StartSolving "abc" true; App.Socket (Push.Open 0)])
         (App.Socket (Push.Message 0 (Push.Json Sample.done_all))))
    = Some [Sample.item "A"; Sample.item "B"; Sample.item "C"].
Proof.
  split; [reflexivity|]. split; [reflexivity|]. split; [reflexivity|].
  apply (proj1 (proj2 (app_view_after_frame
           (App.run App.init [App.StartSolving "abc" true; App.Socket (Push.Open 0)])
           0 Sample.done_all eq_refl eq_refl))).
  reflexivity.
Defined.

(** X13: what [App] shows after an answer to a query of the polling hook.
    A non-terminal answer becomes the progress on display; [completed] ends
    processing and shows the results of the answer; [error] ends processing;
    and a failed query changes nothing of what is shown. *)
Theorem app_view_after_answer (s : App.state) (q : nat) (sid : string)
    (data : envelope) :
  Pull.inflight (App.polling s) !! q = Some sid →
  (Pull.is_terminal data = false →
     App.processing (App.step s (App.Poll (Pull.Settle q (Pull.Resolved data))))
     = App.processing s
     ∧ App.progressData (App.step s (App.Poll (Pull.Settle q (Pull.Resolved data))))
       = Some data
     ∧ App.shown_results (App.step s (App.Poll (Pull.Settle q (Pull.Resolved data))))
       = App.shown_results s)
  ∧ (status data = Some "completed" →
     App.processing (App.step s (App.Poll (Pull.Settle q (Pull.Resolved data))))
     = false
     ∧ App.progressData (App.step s (App.Poll (Pull.Settle q (Pull.Resolved data))))
       = None
     ∧ App.shown_results (App.step s (App.Poll (Pull.Settle q (Pull.Resolved data))))
       = Some (results data))
  ∧ (status data = Some "error" →
     App.processing (App.step s (App.Poll (Pull.Settle q (Pull.Resolved data))))
     = false
     ∧ App.progressData (App.step s (App.Poll (Pull.Settle q (Pull.Resolved data))))
       = None
     ∧ App.shown_results (App.step s (App.Poll (Pull.Settle q (Pull.Resolved data))))
       = App.shown_results s)
  ∧ (App.processing (App.step s (App.Poll (Pull.Settle q Pull.Rejected)))
     = App.processing s
     ∧ App.progressData (App.step s (App.Poll (Pull.Settle q Pull.Rejected)))
       = App.progressData s
     ∧ App.shown_results (App.step s (App.Poll (Pull.Settle q Pull.Rejected)))
       = App.shown_results s).
Proof.
  intros Hq. rewrite (app_step_answer s q sid data Hq).
  unfold Pull.forwarded, Pull.is_terminal, Pull.terminal_call.
  split; [|split; [|split]].
  - by intros ->.
  - by intros ->.
  - by intros ->.
  - unfold App.step, App.from_browser_pull.
    rewrite (pull_settle_rejected _ sid q Hq). simpl.
    unfold App.new_calls. by rewrite drop_all.
Qed.

Lemma app_view_after_answer_witness :
  Pull.inflight (App.polling (App.startSolving "abc" false App.init)) !! 0 = Some "abc"
  ∧ Pull.is_terminal (Sample.tick 1) = false
  ∧ App.progressData
      (App.step (App.startSolving "abc" false App.init)
         (App.Poll (Pull.Settle 0 (Pull.Resolved (Sample.tick 1)))))
    = Some (Sample.tick 1).
Proof.
  split; [reflexivity|]. split; [reflexivity|].
  apply (proj1 (app_view_after_answer (App.startSolving "abc" false App.init)
                  0 "abc" (Sample.tick 1) eq_refl)).
  reflexivity.
Defined.

(** X14: [startSolving] stops the socket of the previous session but never
    the polling hook.  When an earlier session fell back to polling and its
    query is still in flight, a later session that gets its socket is shown
    as finished, with the earlier session's results, as soon as that query is
    answered [completed], while its own socket is still connecting. *)
Theorem earlier_polling_ends_later_session (s : App.state) (a b : string)
    (q : nat) (data : envelope) :
  Pull.inflight (App.polling s) !! q = Some a →
  status data = Some "completed" →
  App.polling (App.startSolving b true s) = App.polling s
  ∧ Push.ready (App.ws (App.startSolving b true s))
      (length (Push.sockets (App.ws s))) = Some Push.CONNECTING
  ∧ App.processing
      (App.step (App.startSolving b true s)
         (App.Poll (Pull.Settle q (Pull.Resolved data)))) = false
  ∧ App.shown_results
      (App.step (App.startSolving b true s)
         (App.Poll (Pull.Settle q (Pull.Resolved data)))) = Some (results data)
  ∧ Push.ready
      (App.ws (App.step (App.startSolving b true s)
                 (App.Poll (Pull.Settle q (Pull.Resolved data)))))
      (length (Push.sockets (App.ws s))) = Some Push.CONNECTING.
Proof.
  intros Hq Hst.
  assert (Push.ready (Push.start b (App.ws s)) (length (Push.sockets (App.ws s)))
          = Some Push.CONNECTING) as Hc.
  { unfold Push.ready, Push.start. simpl.
    by rewrite <-(push_stop_length (App.ws s)), lookup_app_r, Nat.sub_diag. }
  split; [done|]. split; [done|].
  rewrite (app_step_answer (App.startSolving b true s) q a data Hq).
  unfold Pull.forwarded, Pull.is_terminal, Pull.terminal_call. rewrite Hst. simpl.
  done.
Qed.

Lemma earlier_polling_ends_later_session_witness :
  Pull.inflight (App.polling (App.startSolving "a" false App.init)) !! 0 = Some "a"
  ∧ status Sample.done_all = Some "completed"
  ∧ App.processing
      (App.run App.init
         [App.StartSolving "a" false; App.StartSolving "b" true;
          App.Poll (Pull.Settle 0 (Pull.Resolved Sample.done_all))]) = false.
Proof.
  split; [reflexivity|]. split; [reflexivity|].
  apply (proj1 (proj2 (proj2 (earlier_polling_ends_later_session
           (App.startSolving "a" false App.init) "a" "b" 0 Sample.done_all
           eq_refl eq_refl)))).
Defined.

(** ** FolderMode: the selection *)

Lemma has_true (x : string) (s : list string) : FolderMode.has x s = true ↔ x ∈ s.
Proof. unfold FolderMode.has. apply bool_decide_eq_true. Qed.

Lemma has_false (x : string) (s : list string) : FolderMode.has x s = false ↔ x ∉ s.
Proof. unfold FolderMode.has. apply bool_decide_eq_false. Qed.

Lemma add_spec (x : string) (s : list string) :
  NoDup s →
  NoDup (FolderMode.add x s) ∧ (∀ y, y ∈ FolderMode.add x s ↔ y = x ∨ y ∈ s).
Proof.
  intros Hs. unfold FolderMode.add. destruct (FolderMode.has x s) eqn:Hx.
  - apply has_true in Hx. split; [done|]. intros y. split; [auto|].
    by intros [->|?].
  - apply has_false in Hx. split.
    + apply NoDup_app. split; [done|]. split; [|apply NoDup_singleton].
      intros y Hy ->%list_elem_of_singleton. done.
    + intros y. rewrite elem_of_app, list_elem_of_singleton. tauto.
Qed.

Lemma new_Set_from (l acc : list string) :
  NoDup acc →
  NoDup (foldl (λ s x, FolderMode.add x s) acc l)
  ∧ (∀ y, y ∈ foldl (λ s x, FolderMode.add x s) acc l ↔ y ∈ acc ∨ y ∈ l)
  ∧ length (foldl (λ s x, FolderMode.add x s) acc l) ≤ length acc + length l
  ∧ (NoDup (acc ++ l) → foldl (λ s x, FolderMode.add x s) acc l = acc ++ l).
Proof.
  revert acc. induction l as [|x l IH]; intros acc Hacc.
  - simpl. rewrite app_nil_r. split; [done|]. split; [|split; [lia|done]].
    intros y. rewrite elem_of_nil. tauto.
  - destruct (add_spec x acc Hacc) as [Hnd Hin].
    destruct (IH _ Hnd) as (IH1 & IH2 & IH3 & IH4). simpl.
    split; [done|]. split; [|split].
    + intros y. rewrite IH2, Hin, elem_of_cons. tauto.
    + etrans; [exact IH3|]. unfold FolderMode.add.
      destruct (FolderMode.has x acc); rewrite ?length_app; simpl; lia.
    + intros Hall. assert (x ∉ acc) as Hx.
      { apply NoDup_app in Hall as (_ & Hall & _). intros Hx.
        apply (Hall x Hx). by left. }
      assert (FolderMode.add x acc = acc ++ [x]) as Hadd
        by (unfold FolderMode.add; by rewrite (proj2 (has_false x acc) Hx)).
      rewrite Hadd in IH4 |- *.
      rewrite IH4; by rewrite <-app_assoc.
Qed.

Lemma new_Set_id (s : list string) : NoDup s → FolderMode.new_Set s = s.
Proof.
  intros Hs. unfold FolderMode.new_Set.
  by apply (new_Set_from s [] (NoDup_nil_2)).
Qed.

Lemma delete_spec (x : string) (s : list string) :
  NoDup s →
  NoDup (FolderMode.delete x s)
  ∧ (∀ y, y ∈ FolderMode.delete x s ↔ y ≠ x ∧ y ∈ s)
  ∧ (x ∉ s → FolderMode.delete x s = s)
  ∧ (x ∈ s → length s = S (length (FolderMode.delete x s))).
Proof.
  intros Hs. unfold FolderMode.delete. split; [by apply NoDup_filter|].
  split; [intros y; exact (list_elem_of_filter (λ y, y ≠ x) s y)|]. split.
  - induction s as [|z s IH]; intros Hx; [done|].
    apply NoDup_cons in Hs as [_ Hs]. apply not_elem_of_cons in Hx as [Hne Hx].
    rewrite filter_cons_True by done. by rewrite (IH Hs Hx).
  - induction s as [|z s IH]; intros Hx; [by apply elem_of_nil in Hx|].
    apply NoDup_cons in Hs as [Hz Hs].
    destruct (decide (z = x)) as [->|Hne].
    + rewrite filter_cons_False by (intros H; by apply H). simpl. f_equal.
      clear IH Hx. induction s as [|y s IH]; [done|].
      apply not_elem_of_cons in Hz as [Hne Hz]. apply NoDup_cons in Hs as [_ Hs].
      rewrite filter_cons_True by done. simpl. f_equal. by apply IH.
    + rewrite filter_cons_True by done. simpl. f_equal. apply (IH Hs).
      apply elem_of_cons in Hx as [->|Hx]; done.
Qed.

(** X15: [toggleFile] flips the membership of the file it is given and of
    no other, keeps the selection free of duplicates, and changes its size by
    exactly one. *)
Theorem toggleFile_flips (x : string) (prev : list string) :
  NoDup prev →
  NoDup (FolderMode.toggleFile x prev)
  ∧ FolderMode.has x (FolderMode.toggleFile x prev) = negb (FolderMode.has x prev)
  ∧ (∀ y, y ≠ x →
       FolderMode.has y (FolderMode.toggleFile x prev) = FolderMode.has y prev)
  ∧ (if FolderMode.has x prev
     then length prev = S (length (FolderMode.toggleFile x prev))
     else length (FolderMode.toggleFile x prev) = S (length prev)).
Proof.
  intros Hp. unfold FolderMode.toggleFile. rewrite (new_Set_id prev Hp).
  destruct (delete_spec x prev Hp) as (Hd1 & Hd2 & _ & Hd4).
  destruct (add_spec x prev Hp) as (Ha1 & Ha2).
  destruct (FolderMode.has x prev) eqn:Hx.
  - apply has_true in Hx. split; [done|]. split; [|split; [|auto]].
    + apply has_false. rewrite Hd2. tauto.
    + intros y Hy. apply bool_decide_ext. rewrite Hd2. tauto.
  - split; [done|]. split; [|split].
    + apply has_true. rewrite Ha2. tauto.
    + intros y Hy. apply bool_decide_ext. rewrite Ha2. tauto.
    + unfold FolderMode.add. rewrite Hx, length_app. simpl. lia.
Qed.

Lemma toggleFile_flips_witness :
  NoDup ["a.png"; "b.png"]
  ∧ FolderMode.toggleFile "a.png" ["a.png"; "b.png"] = ["b.png"]
  ∧ FolderMode.has "a.png" (FolderMode.toggleFile "a.png" ["a.png"; "b.png"]) = false.
Proof.
  assert (NoDup ["a.png"; "b.png"]) as Hnd.
  { apply NoDup_cons. split; [|apply NoDup_singleton].
    by intros ?%list_elem_of_singleton. }
  split; [exact Hnd|]. split; [reflexivity|].
  apply (proj1 (proj2 (toggleFile_flips "a.png" ["a.png"; "b.png"] Hnd))).
Defined.

(** X16: toggling a file twice gives back the same selection as a set.
    When the file was not selected the list is the very same; when it was,
    the file has moved to the end of the insertion order, which is the order
    [solveSelected] sends the names in. *)
Theorem toggleFile_twice (x : string) (prev : list string) :
  NoDup prev →
  FolderMode.toggleFile x (FolderMode.toggleFile x prev) ≡ₚ prev
  ∧ (x ∉ prev → FolderMode.toggleFile x (FolderMode.toggleFile x prev) = prev)
  ∧ (x ∈ prev →
     FolderMode.toggleFile x (FolderMode.toggleFile x prev)
     = FolderMode.delete x prev ++ [x]).
Proof.
  intros Hp.
  assert (x ∉ prev → FolderMode.toggleFile x (FolderMode.toggleFile x prev) = prev) as H1.
  { intros Hx. unfold FolderMode.toggleFile at 2.
    rewrite (new_Set_id prev Hp), (proj2 (has_false x prev) Hx).
    unfold FolderMode.add. rewrite (proj2 (has_false x prev) Hx).
    assert (NoDup (prev ++ [x])) as Hnd'.
    { apply NoDup_app. split; [done|]. split; [|apply NoDup_singleton].
      intros y Hy ->%list_elem_of_singleton. done. }
    unfold FolderMode.toggleFile. rewrite (new_Set_id _ Hnd').
    assert (FolderMode.has x (prev ++ [x]) = true) as ->
      by (apply has_true, elem_of_app; right; by apply list_elem_of_singleton).
    unfold FolderMode.delete. rewrite filter_app.
    destruct (delete_spec x prev Hp) as (_ & _ & Hid & _).
    unfold FolderMode.delete in Hid. rewrite (Hid Hx).
    rewrite filter_cons_False by (intros H; by apply H). by rewrite app_nil_r. }
  assert (x ∈ prev → FolderMode.toggleFile x (FolderMode.toggleFile x prev)
                     = FolderMode.delete x prev ++ [x]) as H2.
  { intros Hx. unfold FolderMode.toggleFile at 2.
    rewrite (new_Set_id prev Hp), (proj2 (has_true x prev) Hx).
    destruct (delete_spec x prev Hp) as (Hd1 & Hd2 & _).
    unfold FolderMode.toggleFile. rewrite (new_Set_id _ Hd1).
    assert (FolderMode.has x (FolderMode.delete x prev) = false) as Hno
      by (apply has_false; rewrite Hd2; tauto).
    rewrite Hno. unfold FolderMode.add. by rewrite Hno. }
  split; [|done].
  destruct (decide (x ∈ prev)) as [Hx|Hx]; [|by rewrite (H1 Hx)].
  rewrite (H2 Hx). destruct (delete_spec x prev Hp) as (Hd1 & Hd2 & _).
  apply NoDup_Permutation; [|done|].
  - apply NoDup_app. split; [done|]. split; [|apply NoDup_singleton].
    intros y Hy ->%list_elem_of_singleton. apply Hd2 in Hy. tauto.
  - intros y. rewrite elem_of_app, Hd2, list_elem_of_singleton.
    destruct (decide (y = x)) as [->|]; tauto.
Qed.

Lemma toggleFile_twice_witness :
  NoDup ["a.png"; "b.png"]
  ∧ "a.png" ∈ ["a.png"; "b.png"]
  ∧ FolderMode.toggleFile "a.png" (FolderMode.toggleFile "a.png" ["a.png"; "b.png"])
    = ["b.png"; "a.png"].
Proof.
  assert (NoDup ["a.png"; "b.png"]) as Hnd.
  { apply NoDup_cons. split; [|apply NoDup_singleton].
    by intros ?%list_elem_of_singleton. }
  assert ("a.png" ∈ ["a.png"; "b.png"]) as Hin by (by left).
  split; [exact Hnd|]. split; [exact Hin|].
  apply (proj2 (proj2 (toggleFile_twice "a.png" ["a.png"; "b.png"] Hnd)) Hin).
Defined.

(** X17: [selectAll] selects every file name of the folder and nothing
    else, each once even when the listing repeats a name; followed by
    [solveSelected] it sends exactly that selection, and the request is
    refused exactly when the folder is empty. *)
Theorem selectAll_then_solve (files : list FolderMode.file) :
  NoDup (FolderMode.selectAll files)
  ∧ (∀ x, x ∈ FolderMode.selectAll files ↔ x ∈ FolderMode.file_filename <$> files)
  ∧ length (FolderMode.selectAll files) ≤ length files
  ∧ (files = [] → FolderMode.solveSelected (FolderMode.selectAll files) = None)
  ∧ (files ≠ [] →
     FolderMode.solveSelected (FolderMode.selectAll files)
     = Some (FolderMode.selectAll files)).
Proof.
  unfold FolderMode.selectAll, FolderMode.new_Set.
  destruct (new_Set_from (FolderMode.file_filename <$> files) [] NoDup_nil_2)
    as (H1 & H2 & H3 & _).
  split; [done|]. split; [|split; [|split]].
  - intros x. rewrite H2, elem_of_nil. tauto.
  - by rewrite length_fmap in H3.
  - by intros ->.
  - intros Hne. unfold FolderMode.solveSelected.
    destruct files as [|f files]; [done|].
    assert (FolderMode.file_filename f
            ∈ foldl (λ s x, FolderMode.add x s) []
                (FolderMode.file_filename <$> f :: files)) as Hin
      by (apply H2; right; by left).
    destruct (foldl _ _ _); [by apply elem_of_nil in Hin|done].
Qed.

Lemma selectAll_then_solve_witness :
  [{| FolderMode.file_filename := "a.png"; FolderMode.file_size := None |};
   {| FolderMode.file_filename := "b.png"; FolderMode.file_size := None |};
   {| FolderMode.file_filename := "a.png"; FolderMode.file_size := None |}] ≠ []
  ∧ FolderMode.solveSelected (FolderMode.selectAll
      [{| FolderMode.file_filename := "a.png"; FolderMode.file_size := None |};
       {| FolderMode.file_filename := "b.png"; FolderMode.file_size := None |};
       {| FolderMode.file_filename := "a.png"; FolderMode.file_size := None |}])
    = Some ["a.png"; "b.png"].
Proof.
  split; [discriminate|].
  rewrite (proj2 (proj2 (proj2 (proj2 (selectAll_then_solve
             [{| FolderMode.file_filename := "a.png"; FolderMode.file_size := None |};
              {| FolderMode.file_filename := "b.png"; FolderMode.file_size := None |};
              {| FolderMode.file_filename := "a.png"; FolderMode.file_size := None |}])))));
    [reflexivity|discriminate].
Defined.

(** ** FolderMode: the result badges *)

Lemma resultMap_own (l : list item_result) (name : string) :
  foldl (λ map r, FolderMode.assign (filename r) (success r) map)
    (∅ : gmap string bool) l !! name
  = if String.eqb name "__proto__" then None
    else success <$> last (filter (λ r, filename r = name) l).
Proof.
  induction l as [|r l IH] using rev_ind; [by destruct (String.eqb _ _)|].
  rewrite foldl_app, filter_app. simpl.
  set (own := foldl _ _ l) in *. unfold FolderMode.assign.
  destruct (String.eqb_spec (filename r) "__proto__") as [Hr|Hr].
  - rewrite IH. destruct (String.eqb_spec name "__proto__") as [Hn|Hn]; [done|].
    rewrite filter_cons_False by congruence. by rewrite filter_nil, app_nil_r.
  - rewrite lookup_insert. case_decide as Hrn.
    + subst name. rewrite (proj2 (String.eqb_neq _ _) Hr).
      rewrite filter_cons_True by done. by rewrite filter_nil, last_snoc.
    + rewrite IH. rewrite filter_cons_False by done. by rewrite filter_nil, app_nil_r.
Qed.

Lemma last_filter_is_Some (l : list item_result) (name : string) :
  is_Some (last (filter (λ r, filename r = name) l)) ↔ name ∈ filename <$> l.
Proof.
  rewrite list_elem_of_fmap. split.
  - intros [r Hl]. apply last_Some in Hl as [l' Hl].
    assert (r ∈ filter (λ r, filename r = name) l) as Hin
      by (rewrite Hl; apply elem_of_app; right; by left).
    apply (list_elem_of_filter (λ r, filename r = name)) in Hin as [Hn Hin].
    by exists r.
  - intros (r & -> & Hin).
    assert (r ∈ filter (λ r', filename r' = filename r) l) as Hf
      by (by apply (list_elem_of_filter (λ r', filename r' = filename r))).
    destruct (last _) as [r'|] eqn:Hl; [by eexists|].
    apply last_None in Hl. rewrite Hl in Hf. by apply elem_of_nil in Hf.
Qed.

(** X18: for a file whose name no object inherits, [resultMap] gives the
    outcome of the last result reported under that name, the file has a badge
    exactly when some result carries its name, and without progress data it
    has none.  A file whose name is inherited from [Object.prototype] has a
    badge whatever the results, also without progress data; the badge is
    green until a result is reported under the name, and then shows the last
    such result, except for [__proto__], whose badge stays green. *)
Theorem resultMap_last_wins (data : envelope) (name : string) :
  (name ∉ FolderMode.Object_prototype →
     FolderMode.get (FolderMode.resultMap (Some data)) name
     = FolderMode.Own ∘ success
         <$> last (filter (λ r, filename r = name) (results data))
     ∧ (FolderMode.hasResult (Some data) name = true
        ↔ name ∈ filename <$> results data)
     ∧ FolderMode.hasResult None name = false)
  ∧ (name ∈ FolderMode.Object_prototype →
     FolderMode.hasResult (Some data) name = true
     ∧ FolderMode.hasResult None name = true
     ∧ FolderMode.badge None name = Some true)
  ∧ (name ∈ FolderMode.Object_prototype → name ≠ "__proto__" →
     FolderMode.badge (Some data) name
     = Some (default true
               (success <$> last (filter (λ r, filename r = name) (results data)))))
  ∧ FolderMode.badge (Some data) "__proto__" = Some true.
Proof.
  assert ("__proto__" ∈ FolderMode.Object_prototype) as Hproto
    by (unfold FolderMode.Object_prototype; do 10 right; by left).
  unfold FolderMode.hasResult, FolderMode.badge, FolderMode.get, FolderMode.resultMap.
  split; [|split; [|split]].
  - intros Hn. rewrite resultMap_own, lookup_empty.
    assert (name ≠ "__proto__") as Hne by (intros ->; done).
    rewrite (proj2 (String.eqb_neq _ _) Hne), (bool_decide_eq_false_2 _ Hn).
    split; [by destruct (last _)|]. split; [|done].
    rewrite bool_decide_eq_true, <-last_filter_is_Some.
    destruct (last _); simpl; split; (done || by eauto || by intros [? ?]).
  - intros Hn. rewrite lookup_empty, (bool_decide_eq_true_2 _ Hn).
    split; [|split; [|done]]; apply bool_decide_eq_true; [|by eauto].
    by destruct (_ !! _); eauto.
  - intros Hn Hne. rewrite resultMap_own.
    rewrite (proj2 (String.eqb_neq _ _) Hne), (bool_decide_eq_true_2 _ Hn).
    by destruct (last _).
  - by rewrite resultMap_own, String.eqb_refl, (bool_decide_eq_true_2 _ Hproto).
Qed.

Lemma resultMap_last_wins_witness :
  (("a.png" ∉ FolderMode.Object_prototype)
   ∧ FolderMode.get
       (FolderMode.resultMap
          (Some {| type := None; status := None; error := None; progress := None;
                   total := None;
                   results := [{| filename := "a.png"; success := false |};
                               {| filename := "b.png"; success := true |};
                               {| filename := "a.png"; success := true |}];
                   latest_result := None |})) "a.png"
     = Some (FolderMode.Own true))
  ∧ ("constructor" ∈ FolderMode.Object_prototype
     ∧ FolderMode.hasResult None "constructor" = true).
Proof.
  assert ("a.png" ∉ FolderMode.Object_prototype) as Hout.
  { unfold FolderMode.Object_prototype. intros H.
    repeat (apply elem_of_cons in H as [H|H]; [discriminate H|]).
    by apply elem_of_nil in H. }
  assert ("constructor" ∈ FolderMode.Object_prototype) as Hin by (by left).
  split.
  - split; [exact Hout|].
    rewrite (proj1 (proj1 (resultMap_last_wins
               {| type := None; status := None; error := None; progress := None;
                  total := None;
                  results := [{| filename := "a.png"; success := false |};
                              {| filename := "b.png"; success := true |};
                              {| filename := "a.png"; success := true |}];
                  latest_result := None |} "a.png") Hout)).
    reflexivity.
  - split; [exact Hin|].
    apply (proj1 (proj2 (proj1 (proj2 (resultMap_last_wins Sample.blank "constructor"))
                           Hin))).
Defined.
